(** * nestjs-microservice-client-generator

    A shallow embedding of the two halves of the repository:

    - [Generator]: src/generate-patterns-from-decorators.ts, the build-time
      scan of the controllers (routing-key resolution, handler validation,
      duplicate detection, the generated routing-key map, the exit code);
    - [Runtime]: src/client.service.ts, the dynamic client proxy (method
      binding on first property access, connection supervision, payload and
      options disambiguation, the shape of the returned value).

    JavaScript values are an inductive type, strings are [string]s of bytes,
    numbers are integers ([Z]), a thrown exception is a [Throw] result. *)

From Stdlib Require Import ZArith List String Ascii Bool Lia DecimalString.
From stdpp Require Import base strings gmap.
Import ListNotations.
Open Scope string_scope.
Set Warnings "-register-all".

(** ** JavaScript values and results *)

Module Js.

Inductive value :=
| JUndefined
| JNull
| JBool (b : bool)
| JNum (n : Z)
| JStr (s : string)
| JArr (xs : list value)
| JObj (fields : list (string * value)).

(** A computation that returns or throws. *)
Inductive result (A : Type) :=
| Ok (a : A)
| Throw (err : string).
Arguments Ok {A} a.
Arguments Throw {A} err.

Definition bind {A B} (r : result A) (k : A -> result B) : result B :=
  match r with
  | Ok a => k a
  | Throw e => Throw e
  end.

#[global] Instance result_bind : MBind result := fun A B k r => bind r k.
#[global] Instance result_ret : MRet result := @Ok.

(** [xs.map(f)] where [f] may throw: the first exception aborts the map. *)
Fixpoint mapResult {A B} (f : A -> result B) (xs : list A) : result (list B) :=
  match xs with
  | [] => Ok []
  | x :: rest => y ← f x; ys ← mapResult f rest; Ok (y :: ys)
  end.

(** Own-property lookup [o[k]]; the last binding of a key is the live one
    when a literal repeats it. *)
Fixpoint lookup_field (k : string) (fields : list (string * value)) : option value :=
  match fields with
  | [] => None
  | (k', v) :: rest =>
      match lookup_field k rest with
      | Some w => Some w
      | None => if String.eqb k k' then Some v else None
      end
  end.

(** *** Objects as their own keys in enumeration order

    An object is the list of its own properties in the order [Object.keys],
    [Object.entries] and [JSON.stringify] go through them: the keys that
    are array indices first, by ascending value, then the other keys in the
    order they were created. *)

Definition digitOf (c : ascii) : option N :=
  let n := N_of_ascii c in
  if ((48 <=? n) && (n <=? 57))%N then Some (n - 48)%N else None.

Fixpoint parseDigits (s : string) (acc : N) : option N :=
  match s with
  | EmptyString => Some acc
  | String c rest =>
      match digitOf c with
      | Some d => parseDigits rest (10 * acc + d)%N
      | None => None
      end
  end.

(** The array index a property name stands for, if it is one: the decimal
    text, without leading zero, of an integer below 2^32 - 1. *)
Definition arrayIndex (k : string) : option N :=
  match k with
  | EmptyString => None
  | String c rest =>
      if Ascii.eqb c "0"%char && negb (String.eqb rest "") then None
      else
        match parseDigits k 0%N with
        | Some n => if (n <? 4294967295)%N then Some n else None
        | None => None
        end
  end.

(** Where a key that is new to the object goes. *)
Fixpoint insertNew {V} (k : string) (v : V) (fields : list (string * V)) : list (string * V) :=
  match fields with
  | [] => [(k, v)]
  | (k', v') :: rest =>
      match arrayIndex k, arrayIndex k' with
      | Some n, Some n' =>
          if (n' <? n)%N then (k', v') :: insertNew k v rest else (k, v) :: fields
      | Some _, None => (k, v) :: fields
      | None, _ => (k', v') :: insertNew k v rest
      end
  end.

Definition hasOwn {V} (k : string) (fields : list (string * V)) : bool :=
  existsb (String.eqb k) (map fst fields).

(** [o[k] = update(o[k])] when [o] has the key, which keeps its place, and
    [o[k] = fresh] when it has not. *)
Definition upsert {V} (k : string) (fresh : V) (update : V -> V) (fields : list (string * V))
  : list (string * V) :=
  if hasOwn k fields
  then map (fun kv => if String.eqb k (fst kv) then (fst kv, update (snd kv)) else kv) fields
  else insertNew k fresh fields.

(** [o[k] = v] *)
Definition set_field {V} (k : string) (v : V) (fields : list (string * V)) : list (string * V) :=
  upsert k v (fun _ => v) fields.

(** A key that may stand before another one in an object: an array index
    before a larger one and before any key that is none. *)
Definition mayPrecede (k k' : string) : Prop :=
  match arrayIndex k, arrayIndex k' with
  | Some n, Some n' => (n <= n')%N
  | Some _, None => True
  | None, Some _ => False
  | None, None => True
  end.

(** Keys in the order an object enumerates them. *)
Fixpoint inKeyOrder (keys : list string) : Prop :=
  match keys with
  | [] => True
  | k :: rest => Forall (mayPrecede k) rest /\ inKeyOrder rest
  end.

(** [v[k]] for a property read that does not throw on objects; reading a
    property of [undefined] or [null] throws. *)
Definition get_prop (v : value) (k : string) : result value :=
  match v with
  | JUndefined | JNull => Throw "TypeError: cannot read properties of undefined"
  | JObj fields => Ok (default JUndefined (lookup_field k fields))
  | _ => Ok JUndefined
  end.

(** JavaScript truthiness, as the conditional operator tests it. *)
Definition truthy (v : value) : bool :=
  match v with
  | JUndefined | JNull => false
  | JBool b => b
  | JNum n => negb (n =? 0)%Z
  | JStr s => negb (String.eqb s "")
  | JArr _ | JObj _ => true
  end.

(** [methodName.startsWith(p)] and [methodName.endsWith(p)]. *)
Definition startsWith (s p : string) : bool := String.prefix p s.

Definition endsWith (s p : string) : bool :=
  String.prefix (String.rev p) (String.rev s).

End Js.
Import Js.

(** ** JSON.stringify *)

Module Json.

Definition dquote : ascii := "034"%char.
Definition backslash : ascii := "092"%char.

Definition hexDigit (n : nat) : ascii :=
  nth n (list_ascii_of_string "0123456789abcdef") "0"%char.

(** The escape of one character inside a JSON string. *)
Definition escapeChar (c : ascii) : string :=
  let n := nat_of_ascii c in
  if Ascii.eqb c dquote then String backslash (String dquote "")
  else if Ascii.eqb c backslash then String backslash (String backslash "")
  else if Nat.eqb n 8 then "\b"
  else if Nat.eqb n 9 then "\t"
  else if Nat.eqb n 10 then "\n"
  else if Nat.eqb n 12 then "\f"
  else if Nat.eqb n 13 then "\r"
  else if Nat.ltb n 32 then
    "\u00" +:+ String (hexDigit (n / 16)) (String (hexDigit (n mod 16)) "")
  else String c "".

Fixpoint escape (s : string) : string :=
  match s with
  | EmptyString => ""
  | String c rest => escapeChar c +:+ escape rest
  end.

Definition quote (s : string) : string :=
  String dquote (escape s) +:+ String dquote "".

(** The integers a number holds exactly, [Number.isSafeInteger]. *)
Definition isSafeInteger (n : Z) : bool := (Z.abs n <=? 9007199254740991)%Z.

(** The decimal text of an integer, which is what [String(n)] and
    [JSON.stringify(n)] give for a safe integer; from 1e21 on they write a
    number with an exponent instead. *)
Definition numberToString (n : Z) : string := NilZero.string_of_int (Z.to_int n).

(** [JSON.stringify(v)]: [None] stands for the result [undefined]. Inside an
    array [undefined] prints as null, inside an object the property is left
    out. *)
Fixpoint stringify (v : value) : option string :=
  match v with
  | JUndefined => None
  | JNull => Some "null"
  | JBool true => Some "true"
  | JBool false => Some "false"
  | JNum n => Some (numberToString n)
  | JStr s => Some (quote s)
  | JArr xs =>
      let items :=
        (fix go (l : list value) : list string :=
           match l with
           | [] => []
           | x :: rest => default "null" (stringify x) :: go rest
           end) xs in
      Some ("[" +:+ String.concat "," items +:+ "]")
  | JObj fields =>
      let items :=
        (fix go (l : list (string * value)) : list string :=
           match l with
           | [] => []
           | (k, x) :: rest =>
               match stringify x with
               | Some t => (quote k +:+ ":" +:+ t) :: go rest
               | None => go rest
               end
           end) fields in
      Some ("{" +:+ String.concat "," items +:+ "}")
  end.

End Json.

(** ** The remeda string helpers the generator calls *)

Module Remeda.

Definition isLower (c : ascii) : bool :=
  let n := nat_of_ascii c in Nat.leb 97 n && Nat.leb n 122.
Definition isUpper (c : ascii) : bool :=
  let n := nat_of_ascii c in Nat.leb 65 n && Nat.leb n 90.
Definition isDigit (c : ascii) : bool :=
  let n := nat_of_ascii c in Nat.leb 48 n && Nat.leb n 57.

Definition toUpper (c : ascii) : ascii :=
  if isLower c then ascii_of_nat (nat_of_ascii c - 32) else c.
Definition toLower (c : ascii) : ascii :=
  if isUpper c then ascii_of_nat (nat_of_ascii c + 32) else c.

Definition lowercase (s : string) : string :=
  string_of_list_ascii (map toLower (list_ascii_of_string s)).

(** [R.capitalize] and [R.uncapitalize]: only the first character changes. *)
Definition capitalize (s : string) : string :=
  match s with
  | EmptyString => ""
  | String c rest => String (toUpper c) rest
  end.

Definition uncapitalize (s : string) : string :=
  match s with
  | EmptyString => ""
  | String c rest => String (toLower c) rest
  end.

Definition isSeparator (c : ascii) : bool :=
  let n := nat_of_ascii c in
  Ascii.eqb c "-"%char || Ascii.eqb c "_"%char || Nat.eqb n 32
  || (Nat.leb 9 n && Nat.leb n 13).

(** The word splitter behind the case conversions, on ASCII text: a
    separator ends a word, and so does a lower-to-upper step, the last
    capital of a run of capitals followed by a lower-case letter, and a
    step between a digit and a non-digit. The current word is kept
    reversed in [cur]. *)
Fixpoint wordsGo (cs : list ascii) (cur : list ascii) (acc : list string) : list string :=
  let flush (w : list ascii) (a : list string) : list string :=
    match w with
    | [] => a
    | _ => string_of_list_ascii (rev w) :: a
    end in
  match cs with
  | [] => rev (flush cur acc)
  | c :: rest =>
      if isSeparator c then wordsGo rest [] (flush cur acc)
      else
        match cur with
        | l :: _ =>
            if isLower l && isUpper c then wordsGo rest [c] (flush cur acc)
            else
              match cur with
              | u1 :: ((u2 :: _) as before) =>
                  if isUpper u1 && isUpper u2 && isLower c
                  then wordsGo rest [c; u1] (flush before acc)
                  else if negb (Bool.eqb (isDigit u1) (isDigit c))
                  then wordsGo rest [c] (flush cur acc)
                  else wordsGo rest (c :: cur) acc
              | _ =>
                  if negb (Bool.eqb (isDigit l) (isDigit c))
                  then wordsGo rest [c] (flush cur acc)
                  else wordsGo rest (c :: cur) acc
              end
        | [] => wordsGo rest [c] acc
        end
  end.

Definition words (s : string) : list string :=
  wordsGo (list_ascii_of_string s) [] [].

Definition hasLower (s : string) : bool :=
  existsb isLower (list_ascii_of_string s).

(** [R.toCamelCase]: the first word starts lower-case, each later word
    starts upper-case, the rest of a word is kept. Text without any
    lower-case letter is lower-cased first. *)
Definition toCamelCase (s : string) : string :=
  let ws := words (if hasLower s then s else lowercase s) in
  match ws with
  | [] => ""
  | w :: rest => String.concat "" (uncapitalize w :: map capitalize rest)
  end.

(** [R.toKebabCase]: the words in lower case, joined by hyphens. *)
Definition toKebabCase (s : string) : string :=
  String.concat "-" (map lowercase (words s)).

End Remeda.

(** ** The generator: src/generate-patterns-from-decorators.ts *)

Module Generator.

(** *** What the type checker tells about a type

    [valueFromType] reads a [Type] of ts-morph through [getLiteralValue],
    [isTuple], [getTupleElements], [isObject],
    [getProperties] and each property's value declaration; the event check
    reads the [StringLike] flag. A [Ty] is a type as seen through exactly
    these readings. *)

(** What [getLiteralValue] gives: the string of a string literal type, the
    number of a number literal type (an integer here), and for a bigint
    literal type the compiler's record of its sign and its digits. *)
Inductive LiteralValue :=
| LString (s : string)
| LNumber (n : Z)
| LBigInt (negative : bool) (base10Value : string).

Definition literalToValue (lit : LiteralValue) : value :=
  match lit with
  | LString s => JStr s
  | LNumber n => JNum n
  | LBigInt negative base10Value =>
      JObj [("negative", JBool negative); ("base10Value", JStr base10Value)]
  end.

Inductive Ty :=
| TyLiteral (lit : LiteralValue)
    (* getLiteralValue() is defined *)
| TyBooleanLiteral (b : bool)
    (* the type true or false: it has no literal value and is no object *)
| TyTuple (variable : bool) (elements : list Ty) (properties : list (string * option Ty))
    (* isTuple(), with what getTupleElements() gives; [variable]: the tuple
       has a rest element; a tuple type is an object type too, with
       [properties] *)
| TyObject (properties : list (string * option Ty))
    (* isObject(), not a tuple, with what getProperties() gives: each
       property by its escaped name; a property without value declaration
       is [None] *)
| TyOther (stringLike : bool).
    (* no literal value, not an object: string, number, a union, ... *)

Definition isStringLike (type : Ty) : bool :=
  match type with
  | TyLiteral (LString _) => true
  | TyLiteral _ => false
  | TyBooleanLiteral _ => false
  | TyTuple _ _ _ | TyObject _ => false
  | TyOther flag => flag
  end.

(** [valueFromType], lines 51-71. The test of line 57 reads [combinedFlags]
    on the type itself; the flags of a tuple are kept on its target, so the
    test lets every tuple through, with or without rest element, and every
    tuple is read through its elements. [R.pullObject] sets the properties
    one by one. *)
Fixpoint valueFromType (type : Ty) : result value :=
  let pullObject :=
    fix pull (props : list (string * option Ty)) (acc : list (string * value))
      : result (list (string * value)) :=
      match props with
      | [] => Ok acc
      | (name, None) :: _ => Throw "TypeError: getType of undefined"
      | (name, Some propType) :: rest =>
          match valueFromType propType with
          | Ok v => pull rest (set_field name v acc)
          | Throw e => Throw e
          end
      end in
  match type with
  | TyLiteral lit => Ok (literalToValue lit)
  | TyTuple _ elements _ =>
      match
        (fix mapElements (ts : list Ty) : result (list value) :=
           match ts with
           | [] => Ok []
           | t :: rest =>
               match valueFromType t with
               | Ok v =>
                   match mapElements rest with
                   | Ok vs => Ok (v :: vs)
                   | Throw e => Throw e
                   end
               | Throw e => Throw e
               end
           end) elements
      with
      | Ok vs => Ok (JArr vs)
      | Throw e => Throw e
      end
  | TyObject properties =>
      match pullObject properties [] with
      | Ok fields => Ok (JObj fields)
      | Throw e => Throw e
      end
  | TyBooleanLiteral _ | TyOther _ => Throw "Error: Can't extract value from type"
  end.

(** *** The syntax the scan walks *)

(** The first argument of a handler annotation: the routing-key expression.
    [evaluated] is what evaluating its parenthesised source text gives. *)
Record PatternExpr := {
  isLiteralNode : bool;
    (* Node.isLiteralExpression || isObjectLiteralExpression || isArrayLiteralExpression *)
  getText : string;
  evaluated : result value;
  typeAtLocation : Ty;
  exprPos : string
}.

Record Decorator := {
  calleeIdentifier : option string;
    (* the identifier called, when the decorator is a call of an identifier *)
  getArguments : list PatternExpr
}.

Record ParameterDecl := { paramDecorators : list Decorator }.

Record MethodDecl := {
  getName : string;
  getDecorators : list Decorator;
  getParameters : list ParameterDecl;
  namePos : string;
  methodPos : string
}.

Record ClassDecl := {
  className_ : string;
  exported : bool;
  methods_ : list MethodDecl
}.

Record SourceFile := {
  getFilePath : string;
  classes : list ClassDecl
}.

(** One main module path with the controller files found next to it. *)
Record ServiceModule := {
  modulePath : string;
  controllers : list SourceFile
}.

Record MethodInfo := {
  controllerPath : string;
  className : string;
  methodName : string;
  pattern : string;
  paramIndex : Z;
  serviceName : string;
  isEventHandler : bool;
  eventName : option string;
  position : string
}.

Inductive Diagnostic :=
| EventPatternNotString (method path pos : string)
| ReservedPrefix (method path pos : string)
| PatternNotExtracted (method path pos : string)
| EventPatternFormat (patternText path pos : string)
| DuplicateMethods (service : string) (locations : list (string * string * string))
| DuplicateServices (paths : list string).

(** The module-wide [errorFlag] and what [console.error] has printed. *)
Record GenState := {
  errorFlag : bool;
  printed : list Diagnostic
}.

Definition initialState : GenState := {| errorFlag := false; printed := [] |}.

(** [console.error(...); errorFlag = true;] *)
Definition report (d : Diagnostic) (s : GenState) : GenState :=
  {| errorFlag := true; printed := (printed s ++ [d])%list |}.

(** *** Helpers *)

Definition isDecoratorOneOf (names : list string) (d : Decorator) : bool :=
  match calleeIdentifier d with
  | Some text => existsb (String.eqb text) names
  | None => false
  end.

(** [R.isEmpty]: [undefined], a string or an array of length 0, and
    otherwise a value without own enumerable keys. A number or a boolean has
    no key; asking [null] for its keys throws, which the [catch] around the
    call treats like an empty value. *)
Definition isEmpty (v : value) : bool :=
  match v with
  | JUndefined => true
  | JStr s => String.eqb s ""
  | JArr xs => match xs with [] => true | _ => false end
  | JObj fields => match fields with [] => true | _ => false end
  | JNum _ | JBool _ | JNull => true
  end.

Definition isQuote (c : ascii) : bool :=
  Ascii.eqb c "'"%char || Ascii.eqb c Json.dquote || Ascii.eqb c "`"%char.

(** [\w] or a hyphen *)
Definition isNameChar (c : ascii) : bool :=
  Remeda.isLower c || Remeda.isUpper c || Remeda.isDigit c
  || Ascii.eqb c "_"%char || Ascii.eqb c "-"%char.

Fixpoint stripPrefix (p s : string) : option string :=
  match p, s with
  | EmptyString, _ => Some s
  | String a p', String b s' => if Ascii.eqb a b then stripPrefix p' s' else None
  | String _ _, EmptyString => None
  end.

(** The event-name part and the closing character of the text after the
    dot: the name runs as long as the characters are name characters. *)
Fixpoint spanName (s : string) : string * string :=
  match s with
  | EmptyString => ("", "")
  | String c rest =>
      if isNameChar c
      then let '(name, tail) := spanName rest in (String c name, tail)
      else ("", s)
  end.

(** The service names the expression of lines 113-115 takes literally:
    letters, digits and hyphens, none of which has a meaning of its own in a
    regular expression. Any other character of the directory name reaches
    the expression unescaped. *)
Definition isLiteralChar (c : ascii) : bool :=
  Remeda.isLower c || Remeda.isUpper c || Remeda.isDigit c || Ascii.eqb c "-"%char.

Definition takenLiterally (serviceNameKebab : string) : bool :=
  forallb isLiteralChar (list_ascii_of_string serviceNameKebab).

(** [pattern.match(eventPatternRe)?.groups.name] for the expression of
    lines 113-115 built from a service name it takes literally: an opening
    quote, the kebab-case service name, a dot, a non-empty name of word
    characters and hyphens, and the same quote at the end of the text. *)
Definition eventPatternMatch (serviceNameKebab patternText : string) : option string :=
  match patternText with
  | EmptyString => None
  | String q rest =>
      if isQuote q then
        match stripPrefix (serviceNameKebab +:+ ".") rest with
        | None => None
        | Some afterDot =>
            let '(name, tail) := spanName afterDot in
            if negb (String.eqb name "") && String.eqb tail (String q "")
            then Some name else None
        end
      else None
  end.

(** [parameters.findIndex(pred)] *)
Fixpoint findIndex {A} (pred : A -> bool) (l : list A) : Z :=
  match l with
  | [] => (-1)%Z
  | x :: rest =>
      if pred x then 0%Z
      else let i := findIndex pred rest in
           if (i =? -1)%Z then (-1)%Z else (i + 1)%Z
  end.

(** [R.groupBy]: an object with one array per key, each in the order of
    the list; its entries come in the order of the object's keys. *)
Definition addToGroup {A} (k : string) (x : A) (groups : list (string * list A))
  : list (string * list A) :=
  upsert k [x] (fun xs => (xs ++ [x])%list) groups.

Definition groupBy {A} (key : A -> string) (l : list A) : list (string * list A) :=
  fold_left (fun groups x => addToGroup (key x) x groups) l [].

Fixpoint lastSlash (s : string) : string :=
  match s with
  | EmptyString => ""
  | String c rest =>
      if existsb (Ascii.eqb "/"%char) (list_ascii_of_string rest)
      then lastSlash rest
      else if Ascii.eqb c "/"%char then rest else s
  end.

(** [path.basename(p)] and [path.basename(p, ext)] *)
Definition basename (p : string) : string := lastSlash p.

Definition basenameWithout (p ext : string) : string :=
  let b := basename p in
  match stripPrefix (String.rev ext) (String.rev b) with
  | Some r => if String.eqb r "" then b else String.rev r
  | None => b
  end.

(** *** Resolution of the routing key, lines 174-198

    The text of an inline literal is taken as it stands. Otherwise the type
    is collapsed by [valueFromType] and printed by [JSON.stringify]; the
    evaluation of that text gives the collapsed value back. A value that
    [R.isEmpty] holds empty, or any exception, ends in the [catch]. *)
Definition resolvePattern (patternExpr : PatternExpr) : result string :=
  let attempt : result (string * value) :=
    if isLiteralNode patternExpr then
      match evaluated patternExpr with
      | Ok v => Ok (getText patternExpr, v)
      | Throw e => Throw e
      end
    else
      match valueFromType (typeAtLocation patternExpr) with
      | Throw e => Throw e
      | Ok v =>
          match Json.stringify v with
          | Some text => Ok (text, v)
          | None => Throw "TypeError: (null).5"
          end
      end in
  match attempt with
  | Throw e => Throw e
  | Ok (text, v) =>
      if isEmpty v then Throw "Error: Can't extract pattern value" else Ok text
  end.

(** What the callback of lines 128-235 returns for one method: nothing for
    a method without handler annotation or after a diagnostic, a record
    otherwise. *)
Inductive Extraction :=
| NotAHandler
| Rejected (d : Diagnostic)
| Extracted (info : MethodInfo).

Definition isPayloadParameter (p : ParameterDecl) : bool :=
  existsb (isDecoratorOneOf ["Payload"; "Body"]) (paramDecorators p).

(** Lines 210-218. *)
Definition payloadIndex (parameters : list ParameterDecl) : Z :=
  let decoratedParameterIndex := findIndex isPayloadParameter parameters in
  if Nat.ltb 0 (length parameters) && (decoratedParameterIndex =? -1)%Z
  then 0%Z else decoratedParameterIndex.

(** The callback itself. A handler annotation called without argument
    leaves [patternExpr] undefined, and asking the checker for its type
    throws. *)
Definition processMethod (serviceName serviceNameKebab : string)
    (file : SourceFile) (classNode : ClassDecl) (method : MethodDecl) : result Extraction :=
  match List.find (isDecoratorOneOf ["MessagePattern"; "EventPattern"]) (getDecorators method) with
  | None => Ok NotAHandler
  | Some patternDecorator =>
      let isEvent :=
        match calleeIdentifier patternDecorator with
        | Some text => String.eqb text "EventPattern"
        | None => false
        end in
      let name := getName method in
      let path := getFilePath file in
      match getArguments patternDecorator with
      | [] => Throw "TypeError: cannot read properties of undefined"
      | patternExpr :: _ =>
          if isEvent && negb (isStringLike (typeAtLocation patternExpr)) then
            Ok (Rejected (EventPatternNotString name path (exprPos patternExpr)))
          else if negb isEvent && startsWith name "emit" then
            Ok (Rejected (ReservedPrefix name path (namePos method)))
          else
            match resolvePattern patternExpr with
            | Throw _ => Ok (Rejected (PatternNotExtracted name path (exprPos patternExpr)))
            | Ok patternText =>
                let matched := eventPatternMatch serviceNameKebab patternText in
                if isEvent && negb (bool_decide (is_Some matched)) then
                  Ok (Rejected (EventPatternFormat patternText path (exprPos patternExpr)))
                else
                  Ok (Extracted
                        {| controllerPath := path;
                           className := className_ classNode;
                           methodName := name;
                           pattern := patternText;
                           paramIndex := payloadIndex (getParameters method);
                           serviceName := serviceName;
                           isEventHandler := isEvent;
                           eventName :=
                             if isEvent
                             then option_map Remeda.toCamelCase matched
                             else None;
                           position := methodPos method |})
            end
      end
  end.

(** The methods the three nested maps visit, in the order they visit them:
    every method of every exported class of every controller file. *)
Definition handlerSites (controllerFiles : list SourceFile)
  : list (SourceFile * ClassDecl * MethodDecl) :=
  flat_map (fun file =>
    flat_map (fun classNode => map (fun method => (file, classNode, method)) (methods_ classNode))
             (List.filter exported (classes file)))
    controllerFiles.

(** The maps with their effect on the state; an exception leaves them at
    once, a diagnostic does not. *)
Fixpoint scanSites (serviceName serviceNameKebab : string)
    (sites : list (SourceFile * ClassDecl * MethodDecl)) (s : GenState)
  : result (list MethodInfo) * GenState :=
  match sites with
  | [] => (Ok [], s)
  | (file, classNode, method) :: rest =>
      match processMethod serviceName serviceNameKebab file classNode method with
      | Throw e => (Throw e, s)
      | Ok NotAHandler => scanSites serviceName serviceNameKebab rest s
      | Ok (Rejected d) => scanSites serviceName serviceNameKebab rest (report d s)
      | Ok (Extracted info) =>
          match scanSites serviceName serviceNameKebab rest s with
          | (Ok infos, s') => (Ok (info :: infos), s')
          | (Throw e, s') => (Throw e, s')
          end
      end
  end.

(** Lines 243-278: a class name used by two controller files of the service
    is replaced by the service name followed by the class name. *)
Definition usedByTwoFiles (methods : list MethodInfo) (name : string) : bool :=
  Nat.ltb 1 (length (groupBy id
    (map controllerPath (List.filter (fun info => String.eqb (className info) name) methods)))).

Definition aliasDuplicateClassNames (service : string) (methods : list MethodInfo)
  : list MethodInfo :=
  map (fun info =>
         if usedByTwoFiles methods (className info)
         then {| controllerPath := controllerPath info;
                 className := service +:+ className info;
                 methodName := methodName info;
                 pattern := pattern info;
                 paramIndex := paramIndex info;
                 serviceName := serviceName info;
                 isEventHandler := isEventHandler info;
                 eventName := eventName info;
                 position := position info |}
         else info)
      methods.

(** Lines 280-301. *)
Definition duplicateGroups {A} (key : A -> string) (l : list A) : list (list A) :=
  List.filter (fun group => Nat.ltb 1 (length group)) (map snd (groupBy key l)).

Definition duplicateMethodDiagnostics (service : string) (methods : list MethodInfo)
  : list Diagnostic :=
  map (fun group =>
         DuplicateMethods service
           (map (fun info => (methodName info, controllerPath info, position info)) group))
      (duplicateGroups methodName methods).

Definition reportAll (ds : list Diagnostic) (s : GenState) : GenState :=
  fold_left (fun st d => report d st) ds s.

Definition serviceNameOf (m : ServiceModule) : string :=
  Remeda.capitalize (Remeda.toCamelCase (basenameWithout (modulePath m) ".module.ts")).

(** One turn of the loop of lines 106-327, for a service name the event
    expression of line 113 takes literally; [None] is the [continue] of a
    module without handlers. *)
Definition scanModule (m : ServiceModule) (s : GenState)
  : result (option (list MethodInfo)) * GenState :=
  let service := serviceNameOf m in
  let serviceNameKebab := Remeda.toKebabCase service in
  match scanSites service serviceNameKebab (handlerSites (controllers m)) s with
  | (Throw e, s') => (Throw e, s')
  | (Ok [], s') => (Ok None, s')
  | (Ok methods, s') =>
      let aliased := aliasDuplicateClassNames service methods in
      (Ok (Some aliased), reportAll (duplicateMethodDiagnostics service aliased) s')
  end.

(** The loop itself, with the module-wide [methodsByModule]: an exception
    leaves the loop with what the modules before it have recorded. *)
Fixpoint scanModules (modules : list ServiceModule)
    (methodsByModule : list (string * list MethodInfo)) (s : GenState)
  : result unit * list (string * list MethodInfo) * GenState :=
  match modules with
  | [] => (Ok tt, methodsByModule, s)
  | m :: rest =>
      match scanModule m s with
      | (Throw e, s') => (Throw e, methodsByModule, s')
      | (Ok None, s') => scanModules rest methodsByModule s'
      | (Ok (Some methods), s') =>
          scanModules rest (set_field (modulePath m) methods methodsByModule) s'
      end
  end.

(** Lines 369-384. *)
Definition duplicateServiceDiagnostics (modules : list ServiceModule) : list Diagnostic :=
  map DuplicateServices (duplicateGroups basename (map modulePath modules)).

(** *** The routing-key map, lines 422-438 *)

Record PatternEntry := {
  entryKey : string;
  entryPattern : string;
  entryHasPayload : bool
}.

Definition clientMethodName (info : MethodInfo) : string :=
  if isEventHandler info
  then "emit" +:+ Remeda.capitalize (default "undefined" (eventName info))
  else methodName info.

Definition patternEntry (info : MethodInfo) : PatternEntry :=
  {| entryKey := clientMethodName info;
     entryPattern := pattern info;
     entryHasPayload := negb (paramIndex info =? -1)%Z |}.

Fixpoint patternMapOf (methodsByModule : list (string * list MethodInfo))
    (acc : list (string * list PatternEntry)) : result (list (string * list PatternEntry)) :=
  match methodsByModule with
  | [] => Ok acc
  | (_, []) :: _ => Throw "TypeError: cannot read properties of undefined"
  | (_, (first :: _) as group) :: rest =>
      patternMapOf rest
        (set_field (Remeda.uncapitalize (serviceName first)) (map patternEntry group) acc)
  end.

(** *** What a full scan prints

    The diagnostics of a module read off its methods one by one, without
    the state: the reference the scan is compared with. *)
Definition siteDiagnostics (service serviceNameKebab : string)
    (site : SourceFile * ClassDecl * MethodDecl) : list Diagnostic :=
  let '(file, classNode, method) := site in
  match processMethod service serviceNameKebab file classNode method with
  | Ok (Rejected d) => [d]
  | _ => []
  end.

Definition siteRecords (service serviceNameKebab : string)
    (site : SourceFile * ClassDecl * MethodDecl) : list MethodInfo :=
  let '(file, classNode, method) := site in
  match processMethod service serviceNameKebab file classNode method with
  | Ok (Extracted info) => [info]
  | _ => []
  end.

Definition moduleDiagnostics (m : ServiceModule) : list Diagnostic :=
  let service := serviceNameOf m in
  let serviceNameKebab := Remeda.toKebabCase service in
  let sites := handlerSites (controllers m) in
  (flat_map (siteDiagnostics service serviceNameKebab) sites ++
   match flat_map (siteRecords service serviceNameKebab) sites with
   | [] => []
   | methods =>
       duplicateMethodDiagnostics service (aliasDuplicateClassNames service methods)
   end)%list.

(** A method the scan takes for a handler: it carries a handler annotation. *)
Definition isHandler (site : SourceFile * ClassDecl * MethodDecl) : bool :=
  bool_decide (is_Some
    (List.find (isDecoratorOneOf ["MessagePattern"; "EventPattern"])
               (getDecorators (snd site)))).

(** The handler annotation of the method, if it has one, was called with
    a routing-key argument. *)
Definition hasRoutingKey (site : SourceFile * ClassDecl * MethodDecl) : bool :=
  match List.find (isDecoratorOneOf ["MessagePattern"; "EventPattern"])
                  (getDecorators (snd site)) with
  | Some d => match getArguments d with [] => false | _ => true end
  | None => true
  end.

(** *** [main] and the exit code, lines 85-486 *)

Record Run := {
  returned : result (list (string * list PatternEntry));
  finalState : GenState;
  collected : list (string * list MethodInfo)
}.

Definition main (modules : list ServiceModule) : Run :=
  match scanModules modules [] initialState with
  | (Throw e, methodsByModule, s) =>
      {| returned := Throw e; finalState := s; collected := methodsByModule |}
  | (Ok _, methodsByModule, s) =>
      let s' := reportAll (duplicateServiceDiagnostics modules) s in
      {| returned := patternMapOf methodsByModule [];
         finalState := s';
         collected := methodsByModule |}
  end.

Inductive ConsoleError :=
| Diagnosed (d : Diagnostic)
| Uncaught (err : string).

(** Everything [console.error] receives in a run, the [catch] included. *)
Definition consoleErrors (run : Run) : list ConsoleError :=
  (map Diagnosed (printed (finalState run)) ++
   match returned run with
   | Ok _ => []
   | Throw e => [Uncaught e]
   end)%list.

(** Lines 477-486. *)
Definition exitCode (run : Run) : Z :=
  match returned run with
  | Ok _ => if errorFlag (finalState run) then 1%Z else 0%Z
  | Throw _ => 1%Z
  end.

(** *** The generated interface, lines 329-358 *)

(** [generateMsgProxyMethods] *)
Definition generateMsgProxyMethods (info : MethodInfo) : string :=
  methodName info +:+ ": ProxyMethod<" +:+ className info +:+ ", '" +:+ methodName info
  +:+ "', " +:+ Json.numberToString (paramIndex info) +:+ ">;".

(** The payload type one handler of an event contributes. *)
Definition payloadTypeOf (m : MethodInfo) : string :=
  "Parameters<" +:+ className m +:+ "['" +:+ methodName m +:+ "']>["
  +:+ Json.numberToString (paramIndex m) +:+ "]".

(** [generateEventProxyMethods]: one signature per event name, its payload
    the intersection of the payload types of the handlers that have one. *)
Definition eventSignature (name : string) (group : list MethodInfo) : string :=
  let payloadType :=
    String.concat " & "
      (map payloadTypeOf (List.filter (fun m => negb (paramIndex m =? -1)%Z) group)) in
  let method := "emit" +:+ Remeda.capitalize name in
  let args := if String.eqb payloadType "" then "" else "payload: " +:+ payloadType +:+ ", " in
  method +:+ "(" +:+ args +:+ "options?: Options): Observable<unknown>;".

Definition eventKey (info : MethodInfo) : string := default "undefined" (eventName info).

Definition hasEventName (info : MethodInfo) : bool :=
  match eventName info with Some _ => true | None => false end.

Definition hasPayloadParameter (m : MethodInfo) : bool := negb (paramIndex m =? -1)%Z.

(** [R.groupBy] passes over an element whose key is undefined. *)
Definition generateEventProxyMethods (eventInfos : list MethodInfo) : list string :=
  map (fun g => eventSignature (fst g) (snd g))
      (groupBy eventKey (List.filter hasEventName eventInfos)).

(** *** The main module paths, lines 87-89

    The paths the discovery keeps have the shape apps/X/src/X.module.ts for
    a directory name X. *)
Definition hasSlash (s : string) : bool :=
  existsb (Ascii.eqb "/"%char) (list_ascii_of_string s).

Definition discoveredPath (directory : string) : string :=
  "apps/" +:+ directory +:+ "/src/" +:+ directory +:+ ".module.ts".

(** *** Notions the properties are stated with *)

(** Where a record is cited in a diagnostic. *)
Definition locationOf (info : MethodInfo) : string * string * string :=
  (methodName info, controllerPath info, position info).

(** A property list whose value declarations all resolve. *)
Definition resolvesTo (props : list (string * option Ty)) (fields : list (string * value))
  : Prop :=
  Forall2 (fun p kv => fst p = fst kv /\
                       exists t, snd p = Some t /\ valueFromType t = Ok (snd kv))
          props fields.

(** A non-empty name of word characters and hyphens. *)
Definition isName (name : string) : Prop :=
  name <> "" /\ forallb isNameChar (list_ascii_of_string name) = true.

(** The records of a module as the scan leaves them. *)
Definition recordsOf (m : ServiceModule) : list MethodInfo :=
  aliasDuplicateClassNames (serviceNameOf m)
    (flat_map (siteRecords (serviceNameOf m) (Remeda.toKebabCase (serviceNameOf m)))
              (handlerSites (controllers m))).

(** The one value of a string or number literal type. *)
Definition inhabitant (lit : LiteralValue) : option value :=
  match lit with
  | LString s => Some (JStr s)
  | LNumber n => Some (JNum n)
  | LBigInt _ _ => None
  end.

(** The keys of a list in the order they first appear in it. *)
Definition firstAppearances (keys : list string) : list string :=
  fold_left (fun seen k => if existsb (String.eqb k) seen then seen else (seen ++ [k])%list)
            keys [].

(** A literal value that is a string or a number held exactly. *)
Definition isStringOrNumber (lit : LiteralValue) : bool :=
  match lit with
  | LString _ => true
  | LNumber n => Json.isSafeInteger n
  | LBigInt _ _ => false
  end.

(** A module whose service name the event expression takes literally. *)
Definition hasLiteralName (m : ServiceModule) : bool :=
  takenLiterally (Remeda.toKebabCase (serviceNameOf m)).

(** Groups none of which is empty. *)
Definition groupsNonEmpty {A B} (groups : list (A * list B)) : Prop :=
  Forall (fun g => snd g <> []) groups.

(** The key of a service in the routing-key map. *)
Definition serviceKey (m : ServiceModule) : string :=
  Remeda.uncapitalize (serviceNameOf m).

(** A module with a handler annotation without routing key. *)
Definition hasBareAnnotation (m : ServiceModule) : bool :=
  existsb (fun site => negb (hasRoutingKey site)) (handlerSites (controllers m)).

(** Every handler annotation of the modules has its routing-key argument. *)
Definition allHaveRoutingKey (modules : list ServiceModule) : Prop :=
  forall m site, In m modules -> In site (handlerSites (controllers m)) ->
                 hasRoutingKey site = true.

End Generator.

(** ** The runtime: src/client.service.ts *)

Module Runtime.

#[local] Open Scope N_scope.

Definition SERVICE_TIMEOUT : Z := 5000%Z.

(** *** Streams over virtual time

    Time is counted in milliseconds. A transport describes a stream by the
    gaps between its events: each value with the delay since the previous
    event (or since the subscription), and the way the stream ends. What a
    caller observes is the same shape with absolute instants. *)

Inductive Failure :=
| TimeoutError
| EmptyError
| NotConnected (service : string)   (* Error(`Client not connected to ...`) *)
| TypeError (message : string)
| Reason (r : value).               (* whatever the transport failed with *)

Inductive Ending :=
| Completes (at_ : N)
| Errors (at_ : N) (f : Failure)
| Pending.

Record Stream := {
  emissions : list (N * value);
  ending : Ending
}.

(** A stream under a timer of [ms] that is started at the subscription
    and, when [rearm] holds, again at every value: an event has to come no
    later than [ms] after the timer was started (the event wins a tie: its
    turn was scheduled first). Without [rearm] nothing bounds the stream
    after its first value. *)
Fixpoint timeoutWithin (ms : N) (rearm : bool) (emits : list (N * value)) (e : Ending)
  : Stream :=
  match emits with
  | [] =>
      {| emissions := [];
         ending :=
           match e with
           | Completes gap => if (gap <=? ms)%N then Completes gap else Errors ms TimeoutError
           | Errors gap f => if (gap <=? ms)%N then Errors gap f else Errors ms TimeoutError
           | Pending => Errors ms TimeoutError
           end |}
  | (gap, v) :: rest =>
      if (gap <=? ms)%N then
        let tail :=
          if rearm then timeoutWithin ms rearm rest e
          else {| emissions := rest; ending := e |} in
        {| emissions := (gap, v) :: emissions tail; ending := ending tail |}
      else {| emissions := []; ending := Errors ms TimeoutError |}
  end.

(** [timeout(each)] for a number: the timer runs [each] ms, at once when
    [each] is not positive, and is started again after a value only when
    [each > 0]. *)
Definition timeoutEach (each : Z) (emits : list (N * value)) (e : Ending) : Stream :=
  timeoutWithin (Z.to_N each) (0 <? each)%Z emits e.

(** From gaps to instants, for a stream subscribed at [t]. *)
Fixpoint timeline (t : N) (emits : list (N * value)) (e : Ending) : Stream :=
  match emits with
  | [] =>
      {| emissions := [];
         ending :=
           match e with
           | Completes gap => Completes (t + gap)
           | Errors gap f => Errors (t + gap) f
           | Pending => Pending
           end |}
  | (gap, v) :: rest =>
      let tail := timeline (t + gap) rest e in
      {| emissions := (t + gap, v) :: emissions tail; ending := ending tail |}
  end.

(** *** The transport client, an external collaborator *)

Inductive Settled :=
| Resolves (after : N) (v : value)
| Rejects (after : N) (reason : value)
| NeverSettles.

Inductive DispatchMode := Send | Emit.

Record Transport := {
  connectOutcome : nat -> N -> Settled;
    (* the promise of the i-th invocation of client.connect(), made at an instant *)
  statusFeed : N -> Stream;
    (* client.status subscribed at an instant: status names, by gaps *)
  respond : DispatchMode -> value -> value -> N -> Stream
    (* client.send / client.emit (pattern, payload) subscribed at an instant, by gaps *)
}.

Inductive Event :=
| ConnectCalled (at_ : N)
| StatusSubscribed (at_ : N)
| Dispatched (at_ : N) (mode : DispatchMode) (pattern payload : value)
| LogWarn (at_ : N) (f : Failure)
| LogError (at_ : N) (f : Failure)
| LogDebug (at_ : N).

(** *** [connect], lines 70-97 *)

Inductive Phase :=
| Established (at_ : N) (v : value)
| GaveUp (at_ : N) (f : Failure)
| Stuck.

(** One subscription to [attempt$] under [timeout(2000)]: the delay and
    what it ends with. The promise of [client.connect()] is made before the
    timer is started; a promise settled at 2000 ms exactly is taken to be
    in time, its turn having been scheduled first. *)
Definition attempt (tr : Transport) (i : nat) (t : N) : N * (value + Failure) :=
  match connectOutcome tr i t with
  | Resolves d v => if (d <=? 2000)%N then (d, inl v) else (2000%N, inr TimeoutError)
  | Rejects d r => if (d <=? 2000)%N then (d, inr (Reason r)) else (2000%N, inr TimeoutError)
  | NeverSettles => (2000%N, inr TimeoutError)
  end.

(** [err.message] in the error callback of the last [tap], line 89: the
    read throws when the error is [undefined] or [null], which a promise
    can be rejected with. *)
Definition readMessage (f : Failure) : result unit :=
  match f with
  | Reason JUndefined =>
      Throw "Cannot read properties of undefined (reading 'message')"
  | Reason JNull => Throw "Cannot read properties of null (reading 'message')"
  | _ => Ok tt
  end.

(** [connection$]: the attempt, the warning on its failure, [retry] with
    [retries] resubscriptions left and 3000 ms before each, then the last
    [tap]: it logs the error and passes it on, and when its callback throws
    the subscriber gets that exception instead. [i] counts the invocations
    of [client.connect()] so far. *)
Fixpoint connection (tr : Transport) (retries : nat) (i : nat) (t : N)
  : list Event * nat * Phase :=
  match attempt tr i t with
  | (d, inl v) => ([ConnectCalled t; LogDebug (t + d)], S i, Established (t + d) v)
  | (d, inr f) =>
      match retries with
      | O =>
          match readMessage f with
          | Ok _ =>
              ([ConnectCalled t; LogWarn (t + d) f; LogError (t + d) f], S i,
               GaveUp (t + d) f)
          | Throw message =>
              ([ConnectCalled t; LogWarn (t + d) f], S i, GaveUp (t + d) (TypeError message))
          end
      | S remaining =>
          let '(events, n, phase) := connection tr remaining (S i) (t + d + 3000) in
          (ConnectCalled t :: LogWarn (t + d) f :: events, n, phase)
      end
  end.

(** [s === "connected"] *)
Definition isConnected (s : value) : bool :=
  match s with
  | JStr name => String.eqb name "connected"
  | _ => false
  end.

(** The other branch of [connect] under [first()]: the first status decides. *)
Definition awaitConnected (tr : Transport) (service : string) (t : N) : Phase :=
  match statusFeed tr t with
  | {| emissions := (gap, s) :: _ |} =>
      if isConnected s then Established (t + gap) s
      else GaveUp (t + gap) (NotConnected service)
  | {| emissions := []; ending := Completes gap |} => GaveUp (t + gap) EmptyError
  | {| emissions := []; ending := Errors gap f |} => GaveUp (t + gap) f
  | {| emissions := []; ending := Pending |} => Stuck
  end.

(** What [connect()] returned: it is decided when the bound function is
    called, and run when the stream is subscribed. *)
Inductive ConnectionSource := FirstConnection | StatusFeed.

(** *** The bound function, lines 105-119 *)

Record Binding := {
  boundPattern : value;
  boundHasPayload : value;
  isEmitMethod : bool;
  isObservable : bool
}.

(** [ob$] *)
Record Pipeline := {
  source : ConnectionSource;
  mode : DispatchMode;
  sentPattern : value;
  sentPayload : value;
  ms : value
}.

(** The closure state of one proxy. *)
Record ProxyState := {
  firstCall : bool;
  target : gmap string Binding
}.

Definition initialProxy : ProxyState := {| firstCall := true; target := ∅ |}.

Definition connect (st : ProxyState) : ConnectionSource * ProxyState :=
  if firstCall st
  then (FirstConnection, {| firstCall := false; target := target st |})
  else (StatusFeed, st).

(** [options?.timeout ?? SERVICE_TIMEOUT] *)
Definition timeoutOption (options : value) : value :=
  match options with
  | JObj fields =>
      match lookup_field "timeout" fields with
      | None | Some JUndefined | Some JNull => JNum SERVICE_TIMEOUT
      | Some v => v
      end
  | _ => JNum SERVICE_TIMEOUT
  end.

(** Lines 111-117: the stream a call builds. *)
Definition buildPipeline (b : Binding) (arg1 arg2 : value) (st : ProxyState)
  : Pipeline * ProxyState :=
  let payload := if truthy (boundHasPayload b) then arg1 else JObj [] in
  let options := if truthy (boundHasPayload b) then arg2 else arg1 in
  let '(src, st') := connect st in
  ({| source := src;
      mode := if isEmitMethod b then Emit else Send;
      sentPattern := boundPattern b;
      sentPayload := payload;
      ms := timeoutOption options |}, st').

(** The stream [connect()] returned, subscribed under [first()]. *)
Definition establish (tr : Transport) (service : string) (src : ConnectionSource)
    (n : nat) (t : N) : list Event * nat * Phase :=
  match src with
  | FirstConnection => connection tr 5%nat n t
  | StatusFeed => ([StatusSubscribed t], n, awaitConnected tr service t)
  end.

(** A subscription to [ob$] at [t], with [n] invocations of
    [client.connect()] before it: what happens, the new count, and what the
    subscriber observes. *)
Definition subscribe (tr : Transport) (service : string) (ob : Pipeline) (n : nat) (t : N)
  : list Event * nat * Stream :=
  let '(events, n', phase) := establish tr service (source ob) n t in
  match phase with
  | Established t1 _ =>
      match ms ob with
      | JNum due =>
          let inner := respond tr (mode ob) (sentPattern ob) (sentPayload ob) t1 in
          let bounded := timeoutEach due (emissions inner) (ending inner) in
          ((events ++ [Dispatched t1 (mode ob) (sentPattern ob) (sentPayload ob)])%list, n',
           timeline t1 (emissions bounded) (ending bounded))
      | _ =>
          (events, n',
           {| emissions := []; ending := Errors t1 (TypeError "No timeout provided.") |})
      end
  | GaveUp t1 f => (events, n', {| emissions := []; ending := Errors t1 f |})
  | Stuck => (events, n', {| emissions := []; ending := Pending |})
  end.

Inductive Settlement :=
| Fulfilled (at_ : N) (v : value)
| Rejected (at_ : N) (f : Failure)
| Unsettled.

(** [lastValueFrom] *)
Definition lastValueFrom (s : Stream) : Settlement :=
  match ending s with
  | Completes t =>
      match last (emissions s) with
      | Some (_, v) => Fulfilled t v
      | None => Rejected t EmptyError
      end
  | Errors t f => Rejected t f
  | Pending => Unsettled
  end.

Inductive Returned :=
| ReturnsStream (ob : Pipeline)
| ReturnsPromise (settlement : Settlement).

(** The bound function called at [t]: a stream is handed out unsubscribed,
    a promise subscribes at once. *)
Definition call (tr : Transport) (service : string) (b : Binding) (arg1 arg2 : value)
    (st : ProxyState) (n : nat) (t : N)
  : Returned * list Event * ProxyState * nat :=
  let '(ob, st') := buildPipeline b arg1 arg2 st in
  if isObservable b then (ReturnsStream ob, [], st', n)
  else
    let '(events, n', observed) := subscribe tr service ob n t in
    (ReturnsPromise (lastValueFrom observed), events, st', n').

(** *** The [get] trap, lines 102-122 *)

(** [const [a, b] = v]: the value is read through its iterator. *)
Definition destructurePair (v : value) : result (value * value) :=
  match v with
  | JArr xs => Ok (nth 0%nat xs JUndefined, nth 1%nat xs JUndefined)
  | JStr s =>
      let chars := map (fun c => JStr (String c "")) (list_ascii_of_string s) in
      Ok (nth 0%nat chars JUndefined, nth 1%nat chars JUndefined)
  | JUndefined | JNull => Throw "TypeError: undefined is not iterable"
  | _ => Throw "TypeError: object is not iterable"
  end.

(** Lines 106-119: the function bound to a method name, given what the
    destructuring of line 105 produced. *)
Definition makeBinding (pattern hasPayload : value) (methodName : string) : Binding :=
  let emits := startsWith methodName "emit" in
  {| boundPattern := pattern;
     boundHasPayload := hasPayload;
     isEmitMethod := emits;
     isObservable := emits || endsWith methodName "$" |}.

(** The trap for a method name that is no property of [Object.prototype]:
    such a name is in the target exactly when a function has been bound to
    it. (The names the empty target inherits, toString and the like, are
    always in it and are answered by the inherited property.) *)
Definition get (patternMap : value) (service : string) (st : ProxyState) (methodName : string)
  : result (Binding * ProxyState) :=
  match target st !! methodName with
  | Some bound => Ok (bound, st)
  | None =>
      entry ← get_prop patternMap service;
      pair ← destructurePair entry;
      let bound := makeBinding (fst pair) (snd pair) methodName in
      Ok (bound, {| firstCall := firstCall st; target := <[methodName := bound]> (target st) |})
  end.

(** The binding the routing-key map holds for a method of a service:
    [patternMap[serviceName][methodName]], read as a pair. *)
Definition recordedBinding (patternMap : value) (service methodName : string)
  : result (value * value) :=
  byService ← get_prop patternMap service;
  entry ← get_prop byService methodName;
  destructurePair entry.

(** The streams built by a sequence of calls on one proxy, in call order. *)
Record CallRequest := {
  callee : Binding;
  firstArgument : value;
  secondArgument : value
}.

Fixpoint pipelines (calls : list CallRequest) (st : ProxyState) : list Pipeline :=
  match calls with
  | [] => []
  | c :: rest =>
      let '(ob, st') := buildPipeline (callee c) (firstArgument c) (secondArgument c) st in
      ob :: pipelines rest st'
  end.

Definition isConnectCalled (e : Event) : bool :=
  match e with
  | ConnectCalled _ => true
  | _ => false
  end.

Definition isDispatched (e : Event) : bool :=
  match e with
  | Dispatched _ _ _ _ => true
  | _ => false
  end.

(** A connect that fails: the promise is rejected, or it is not settled
    when the 2000 ms are over. *)
Definition failsToConnect (outcome : Settled) : Prop :=
  match outcome with
  | Resolves d _ => 2000 < d
  | Rejects _ _ => True
  | NeverSettles => True
  end.

(** A connect that succeeds: the promise is fulfilled before the 2000 ms
    are over. *)
Definition connectsInTime (outcome : Settled) : Prop :=
  match outcome with
  | Resolves d _ => d < 2000
  | _ => False
  end.

(** A transport whose connect fails at every attempt. *)
Definition alwaysFails (tr : Transport) : Prop :=
  forall i t, failsToConnect (connectOutcome tr i t).

(** A rejection reason whose [message] can be read: any value but
    [undefined] and [null]. *)
Definition messageReadable (r : value) : Prop := r <> JUndefined /\ r <> JNull.

(** What the subscriber of [connection$] gets when the last attempt failed
    with [f]. *)
Definition surfaced (f : Failure) : Failure :=
  match readMessage f with
  | Ok _ => f
  | Throw message => TypeError message
  end.

(** A request stream that completes with every gap under the timeout. *)
Definition completesWithin (due : N) (s : Stream) : Prop :=
  Forall (fun e => fst e < due) (emissions s) /\
  exists gap, ending s = Completes gap /\ gap < due.

End Runtime.

(** ** Concrete inputs *)

Module Examples.
Import Generator Runtime.

Definition quoted (s : string) : string :=
  String Json.dquote (s +:+ String Json.dquote "").

(** A routing key written as a string literal in the annotation. *)
Definition inlineKey (s : string) : PatternExpr :=
  {| isLiteralNode := true;
     getText := quoted s;
     evaluated := Ok (JStr s);
     typeAtLocation := TyLiteral (LString s);
     exprPos := "12:17" |}.

(** A routing key given by a constant of a fixed type. *)
Definition constantKey (type : Ty) : PatternExpr :=
  {| isLiteralNode := false;
     getText := "PATTERN";
     evaluated := Throw "ReferenceError: PATTERN is not defined";
     typeAtLocation := type;
     exprPos := "12:17" |}.

Definition annotation (name : string) (key : PatternExpr) : Decorator :=
  {| calleeIdentifier := Some name; getArguments := [key] |}.

Definition plainParameter : ParameterDecl := {| paramDecorators := [] |}.

Definition payloadParameter : ParameterDecl :=
  {| paramDecorators := [{| calleeIdentifier := Some "Payload"; getArguments := [] |}] |}.

Definition handler (name : string) (d : Decorator) (parameters : list ParameterDecl)
  : MethodDecl :=
  {| getName := name;
     getDecorators := [d];
     getParameters := parameters;
     namePos := "13:3";
     methodPos := "12:3" |}.

Definition helperMethod : MethodDecl :=
  {| getName := "normalize";
     getDecorators := [];
     getParameters := [plainParameter];
     namePos := "20:3";
     methodPos := "20:3" |}.

Definition ordersTuple : Ty :=
  TyTuple false [TyLiteral (LString "orders"); TyLiteral (LNumber 1)] [].

Definition onCreated : MethodDecl :=
  handler "onCreated" (annotation "EventPattern" (inlineKey "users.created"))
          [plainParameter].

Definition emitWelcome : MethodDecl :=
  handler "emitWelcome" (annotation "MessagePattern" (inlineKey "welcome")) [].

Definition findOrder : MethodDecl :=
  handler "findOrder" (annotation "MessagePattern" (constantKey ordersTuple))
          [plainParameter; payloadParameter].

Definition controllerClass (name : string) (methods : list MethodDecl) : ClassDecl :=
  {| className_ := name; exported := true; methods_ := methods |}.

Definition usersController : SourceFile :=
  {| getFilePath := "/repo/apps/users/src/users.controller.ts";
     classes := [controllerClass "UsersController" [onCreated; emitWelcome; findOrder]] |}.

Definition usersModule : ServiceModule :=
  {| modulePath := "apps/users/src/users.module.ts"; controllers := [usersController] |}.

Definition accountsController : SourceFile :=
  {| getFilePath := "/repo/apps/accounts/src/accounts.controller.ts";
     classes := [controllerClass "AccountsController" [helperMethod]] |}.

Definition accountsModule : ServiceModule :=
  {| modulePath := "apps/accounts/src/accounts.module.ts";
     controllers := [accountsController] |}.

(** A transport that refuses every connection after 100 ms. *)
Definition refusing : Transport :=
  {| connectOutcome := fun _ _ => Rejects 100 (JStr "ECONNREFUSED");
     statusFeed := fun _ => {| emissions := [(0%N, JStr "disconnected")]; ending := Pending |};
     respond := fun _ _ _ _ => {| emissions := []; ending := Pending |} |}.

(** A transport that connects in 100 ms and answers every request with the
    values 1 and 2, 10 ms apart. *)
Definition twoValues : Transport :=
  {| connectOutcome := fun _ _ => Resolves 100 JUndefined;
     statusFeed := fun _ => {| emissions := [(0%N, JStr "connected")]; ending := Pending |};
     respond := fun _ _ _ _ =>
       {| emissions := [(10%N, JNum 1); (10%N, JNum 2)]; ending := Completes 0 |} |}.

(** The routing-key map the generator writes for one request handler. *)
Definition generatedMap : value :=
  JObj [("users", JObj [("getUser", JArr [JStr "users.get"; JBool true])])].

Definition getUser : Binding := makeBinding (JStr "users.get") (JBool true) "getUser".

Definition ping : Binding := makeBinding (JStr "users.ping") (JBool false) "ping".

Definition connectedProxy : ProxyState := {| firstCall := false; target := ∅ |}.

(** A routing-key map whose entry for the service is itself a pair, the
    shape the trap can read. *)
Definition pairMap : value :=
  JObj [("users", JArr [JStr "users.get"; JBool true])].

(** A transport whose first two connects are refused and whose third
    succeeds after 50 ms; requests to it are never answered. *)
Definition flaky : Transport :=
  {| connectOutcome := fun i _ =>
       if Nat.ltb i 2 then Rejects 100 (JStr "ECONNREFUSED") else Resolves 50 JUndefined;
     statusFeed := fun _ => {| emissions := []; ending := Pending |};
     respond := fun _ _ _ _ => {| emissions := []; ending := Pending |} |}.

(** A second controller file of the users service: its class has the name
    of the first one, and one of its handlers the name of a handler there. *)
Definition findOrderAgain : MethodDecl :=
  {| getName := "findOrder";
     getDecorators := [annotation "MessagePattern" (inlineKey "orders.find")];
     getParameters := [];
     namePos := "31:3";
     methodPos := "30:3" |}.

Definition adminController : SourceFile :=
  {| getFilePath := "/repo/apps/users/src/admin/users.controller.ts";
     classes := [controllerClass "UsersController" [findOrderAgain]] |}.

Definition crowdedModule : ServiceModule :=
  {| modulePath := "apps/users/src/users.module.ts";
     controllers := [usersController; adminController] |}.

(** An object type with a literal property and a tuple property. *)
Definition orderedBy : Ty :=
  TyObject [("cmd", Some (TyLiteral (LString "orders")));
            ("page", Some (TyTuple false [TyLiteral (LNumber 1); TyLiteral (LNumber 2)] []))].

(** A request handler whose key is a tuple with a member of type string. *)
Definition unionKeyHandler : MethodDecl :=
  handler "listOrders"
    (annotation "MessagePattern"
       (constantKey (TyTuple false [TyLiteral (LString "orders"); TyOther true] [])))
    [].

(** A handler whose annotation is called without argument. *)
Definition bareHandler : MethodDecl :=
  {| getName := "listUsers";
     getDecorators := [{| calleeIdentifier := Some "MessagePattern"; getArguments := [] |}];
     getParameters := [];
     namePos := "41:3";
     methodPos := "40:3" |}.

Definition bareModule : ServiceModule :=
  {| modulePath := "apps/billing/src/billing.module.ts";
     controllers :=
       [{| getFilePath := "/repo/apps/billing/src/billing.controller.ts";
           classes := [controllerClass "BillingController" [bareHandler]] |}] |}.

(** A request handler whose key is a tuple with a member of type true. *)
Definition flaggedTuple : Ty :=
  TyTuple false [TyLiteral (LString "orders"); TyBooleanLiteral true] [].

Definition listFlagged : MethodDecl :=
  handler "listFlagged" (annotation "MessagePattern" (constantKey flaggedTuple)) [].

(** A request handler with the reserved prefix whose annotation is called
    without argument, in a module of its own. *)
Definition emitReport : MethodDecl :=
  {| getName := "emitReport";
     getDecorators := [{| calleeIdentifier := Some "MessagePattern"; getArguments := [] |}];
     getParameters := [];
     namePos := "51:3";
     methodPos := "50:3" |}.

Definition reportsController : SourceFile :=
  {| getFilePath := "/repo/apps/reports/src/reports.controller.ts";
     classes := [controllerClass "ReportsController" [emitReport]] |}.

Definition reportsModule : ServiceModule :=
  {| modulePath := "apps/reports/src/reports.module.ts";
     controllers := [reportsController] |}.

(** An object type with a property whose name is an array index. *)
Definition indexedBy : Ty :=
  TyObject [("cmd", Some (TyLiteral (LString "orders")));
            ("1", Some (TyLiteral (LString "first")))].

(** A record of an event handler of users.created, by class and payload index. *)
Definition onCreatedRecord (class : string) (index : Z) : MethodInfo :=
  {| controllerPath := "/repo/apps/users/src/users.controller.ts";
     className := class;
     methodName := "onCreated";
     pattern := quoted "users.created";
     paramIndex := index;
     serviceName := "Users";
     isEventHandler := true;
     eventName := Some "created";
     position := "12:3" |}.

(** A record of a handler of the event of a given name. *)
Definition eventRecord (name : string) : MethodInfo :=
  {| controllerPath := "/repo/apps/users/src/users.controller.ts";
     className := "UsersController";
     methodName := "on" +:+ name;
     pattern := quoted ("users." +:+ name);
     paramIndex := -1;
     serviceName := "Users";
     isEventHandler := true;
     eventName := Some name;
     position := "12:3" |}.

End Examples.

(** ** Objects and groups *)

Section ObjectFacts.

Lemma hasOwn_In {V} (k : string) (fields : list (string * V)) :
  hasOwn k fields = true <-> In k (map fst fields).
Proof.
  unfold hasOwn. rewrite existsb_exists. split.
  - intros (k' & Hin & Heq). apply String.eqb_eq in Heq. now subst.
  - intros Hin. exists k. split; [exact Hin|apply String.eqb_refl].
Qed.

Lemma hasOwn_false {V} (k : string) (fields : list (string * V)) :
  hasOwn k fields = false <-> ~ In k (map fst fields).
Proof.
  rewrite <- hasOwn_In. destruct (hasOwn k fields); split; congruence.
Qed.

(** A new key is put somewhere among the others, which keep their order. *)
Lemma insertNew_perm {V} (k : string) (v : V) (fields : list (string * V)) :
  Permutation.Permutation (insertNew k v fields) ((k, v) :: fields).
Proof.
  induction fields as [|[k' v'] rest IH]; simpl; [reflexivity|].
  destruct (arrayIndex k) as [n|].
  - destruct (arrayIndex k') as [n'|]; [|reflexivity].
    destruct (n' <? n)%N; [|reflexivity].
    rewrite IH. apply Permutation.perm_swap.
  - rewrite IH. apply Permutation.perm_swap.
Qed.

(** A new key that is no array index goes last. *)
Lemma insertNew_last {V} (k : string) (v : V) (fields : list (string * V)) :
  arrayIndex k = None -> insertNew k v fields = (fields ++ [(k, v)])%list.
Proof.
  intros Hk. induction fields as [|[k' v'] rest IH]; simpl; [reflexivity|].
  rewrite Hk. now rewrite IH.
Qed.

Lemma mayPrecede_trans (a b c : string) :
  mayPrecede a b -> mayPrecede b c -> mayPrecede a c.
Proof.
  unfold mayPrecede.
  destruct (arrayIndex a), (arrayIndex b), (arrayIndex c); try tauto. lia.
Qed.

(** A new key goes where the order of the keys is kept. *)
Lemma insertNew_inKeyOrder {V} (k : string) (v : V) (fields : list (string * V)) :
  inKeyOrder (map fst fields) -> inKeyOrder (map fst (insertNew k v fields)).
Proof.
  induction fields as [|[k' v'] rest IH]; simpl.
  - intros _. split; [constructor|exact I].
  - intros [Hhead Hrest].
    assert (Hlater : mayPrecede k' k ->
              inKeyOrder (map fst ((k', v') :: insertNew k v rest))).
    { intros Hk. simpl. split; [|apply IH, Hrest].
      apply (Permutation.Permutation_Forall (x := k :: map fst rest)).
      - apply Permutation.Permutation_sym.
        exact (Permutation.Permutation_map fst (insertNew_perm k v rest)).
      - now constructor. }
    assert (Hfirst : mayPrecede k k' ->
              inKeyOrder (map fst ((k, v) :: (k', v') :: rest))).
    { intros Hk. simpl. split; [|split; assumption].
      constructor; [exact Hk|].
      apply (List.Forall_impl _ (fun c => mayPrecede_trans k k' c Hk) Hhead). }
    unfold mayPrecede in Hlater, Hfirst.
    destruct (arrayIndex k) as [n|] eqn:Hn.
    + destruct (arrayIndex k') as [n'|] eqn:Hn'.
      * destruct (n' <? n)%N eqn:Hlt.
        -- apply Hlater. apply N.ltb_lt in Hlt. lia.
        -- apply Hfirst. apply N.ltb_ge in Hlt. lia.
      * now apply Hfirst.
    + apply Hlater. now destruct (arrayIndex k').
Qed.

Lemma upsert_inKeyOrder {V} (k : string) (fresh : V) (update : V -> V)
    (fields : list (string * V)) :
  inKeyOrder (map fst fields) -> inKeyOrder (map fst (upsert k fresh update fields)).
Proof.
  unfold upsert. destruct (hasOwn k fields).
  - intros Hfields. rewrite map_map.
    rewrite (map_ext _ fst); [exact Hfields|].
    intros [k0 v0]. simpl. now destruct (String.eqb k k0).
  - apply insertNew_inKeyOrder.
Qed.

Lemma upsert_In {V} (k : string) (fresh : V) (update : V -> V) (fields : list (string * V))
    (k' : string) (v' : V) :
  In (k', v') (upsert k fresh update fields) <->
  (k' <> k /\ In (k', v') fields) \/
  (k' = k /\ ((exists v, In (k, v) fields /\ v' = update v) \/
              (~ In k (map fst fields) /\ v' = fresh))).
Proof.
  unfold upsert. destruct (hasOwn k fields) eqn:Hhas.
  - apply hasOwn_In in Hhas. rewrite in_map_iff. split.
    + intros ([k0 v0] & Heq & Hin). simpl in Heq.
      destruct (String.eqb_spec k k0) as [<-|Hne].
      * injection Heq as <- <-. right. split; [reflexivity|]. left. now exists v0.
      * injection Heq as <- <-. left. split; [congruence|exact Hin].
    + intros [[Hne Hin]|[-> [(v & Hin & ->)|[Hnot _]]]].
      * exists (k', v'). simpl. destruct (String.eqb_spec k k') as [->|_]; [congruence|].
        split; [reflexivity|exact Hin].
      * exists (k, v). simpl. rewrite String.eqb_refl. split; [reflexivity|exact Hin].
      * contradiction.
  - apply hasOwn_false in Hhas.
    assert (Hperm : In (k', v') (insertNew k fresh fields) <-> In (k', v') ((k, fresh) :: fields)).
    { split; apply Permutation.Permutation_in;
        [apply insertNew_perm|apply Permutation.Permutation_sym, insertNew_perm]. }
    rewrite Hperm. simpl. split.
    + intros [[= <- <-]|Hin].
      * right. split; [reflexivity|]. right. split; [exact Hhas|reflexivity].
      * left. split; [|exact Hin]. intros ->. apply Hhas.
        exact (in_map fst _ _ Hin).
    + intros [[_ Hin]|[-> [(v & Hin & _)|[_ ->]]]].
      * now right.
      * exfalso. apply Hhas. exact (in_map fst _ _ Hin).
      * now left.
Qed.

Lemma upsert_keys {V} (k : string) (fresh : V) (update : V -> V) (fields : list (string * V))
    (k' : string) :
  In k' (map fst (upsert k fresh update fields)) <-> k' = k \/ In k' (map fst fields).
Proof.
  unfold upsert. destruct (hasOwn k fields) eqn:Hhas.
  - apply hasOwn_In in Hhas. rewrite map_map.
    rewrite (map_ext _ fst); [|intros [k0 v0]; simpl; now destruct (String.eqb k k0)].
    split; [now right|]. intros [->|Hin]; assumption.
  - pose proof (Permutation.Permutation_map fst (insertNew_perm k fresh fields)) as Hperm.
    split.
    + intros Hin. apply (Permutation.Permutation_in _ Hperm) in Hin. simpl in Hin.
      destruct Hin as [<-|Hin]; auto.
    + intros Hin. apply (Permutation.Permutation_in _ (Permutation.Permutation_sym Hperm)).
      simpl. destruct Hin as [->|Hin]; auto.
Qed.

Lemma upsert_NoDup {V} (k : string) (fresh : V) (update : V -> V) (fields : list (string * V)) :
  List.NoDup (map fst fields) -> List.NoDup (map fst (upsert k fresh update fields)).
Proof.
  intros Hnd. unfold upsert. destruct (hasOwn k fields) eqn:Hhas.
  - rewrite map_map.
    rewrite (map_ext _ fst); [exact Hnd|intros [k0 v0]; simpl; now destruct (String.eqb k k0)].
  - apply hasOwn_false in Hhas.
    apply (Permutation.Permutation_NoDup (l := k :: map fst fields)).
    + apply Permutation.Permutation_sym.
      exact (Permutation.Permutation_map fst (insertNew_perm k fresh fields)).
    + now constructor.
Qed.

Lemma set_field_In {V} (k k0 : string) (v v0 : V) (fields : list (string * V)) :
  In (k, v) (set_field k0 v0 fields) -> (k = k0 /\ v = v0) \/ In (k, v) fields.
Proof.
  unfold set_field. rewrite upsert_In.
  intros [[_ Hin]|[-> [(w & _ & ->)|[_ ->]]]]; auto.
Qed.

(** After [o[k] = v] the object holds [v] under [k] and what it held under
    the other keys. *)
Lemma set_field_holds {V} (k : string) (v : V) (fields : list (string * V)) :
  List.NoDup (map fst fields) ->
  In (k, v) (set_field k v fields) /\
  forall k' v', k' <> k -> In (k', v') fields -> In (k', v') (set_field k v fields).
Proof.
  intros Hnd. unfold set_field. split.
  - apply upsert_In. right. split; [reflexivity|].
    destruct (in_dec string_dec k (map fst fields)) as [Hin|Hnot].
    + left. apply in_map_iff in Hin as ([k0 w] & Hk & Hin). simpl in Hk. subst k0.
      now exists w.
    + right. auto.
  - intros k' v' Hne Hin. apply upsert_In. left. auto.
Qed.

(** A key that is new and no array index is set last. *)
Lemma set_field_fresh {V} (k : string) (v : V) (fields : list (string * V)) :
  ~ In k (map fst fields) -> arrayIndex k = None ->
  set_field k v fields = (fields ++ [(k, v)])%list.
Proof.
  intros Hnot Hk. unfold set_field, upsert.
  rewrite (proj2 (hasOwn_false k fields) Hnot). now apply insertNew_last.
Qed.

Lemma set_field_nonEmpty {B} (k : string) (xs : list B) groups :
  xs <> [] -> Generator.groupsNonEmpty groups ->
  Generator.groupsNonEmpty (set_field k xs groups).
Proof.
  intros Hxs Hall. unfold Generator.groupsNonEmpty in *. rewrite List.Forall_forall in *.
  intros [k' ys] Hin. apply set_field_In in Hin as [[_ ->]|Hin]; [exact Hxs|].
  apply (Hall _ Hin).
Qed.

End ObjectFacts.

Section GroupingFacts.
Import Generator.

Lemma groupBy_snoc {A} (key : A -> string) (l : list A) (x : A) :
  groupBy key (l ++ [x]) = addToGroup (key x) x (groupBy key l).
Proof. unfold groupBy. now rewrite fold_left_app. Qed.

Lemma addToGroup_NoDup {A} (k : string) (x : A) groups :
  List.NoDup (map fst groups) -> List.NoDup (map fst (addToGroup k x groups)).
Proof. apply upsert_NoDup. Qed.

(** The groups after one more element: the group of its key gains it at
    the end (or is created), the others are untouched. *)
Lemma addToGroup_In {A} (k : string) (x : A) groups (k' : string) (xs' : list A) :
  In (k', xs') (addToGroup k x groups) <->
  (k' <> k /\ In (k', xs') groups) \/
  (k' = k /\ ((exists xs, In (k, xs) groups /\ xs' = (xs ++ [x])%list) \/
              (~ In k (map fst groups) /\ xs' = [x]))).
Proof. apply upsert_In. Qed.

(** [R.groupBy] in full: the keys are distinct, each group is the sublist
    of the elements of its key, in order, and is not empty, and the key of
    every element has its group. *)
Lemma groupBy_spec {A} (key : A -> string) (l : list A) :
  List.NoDup (map fst (groupBy key l)) /\
  (forall k xs, In (k, xs) (groupBy key l) ->
     xs = List.filter (fun y => String.eqb (key y) k) l /\ xs <> []) /\
  (forall x, In x l ->
     In (key x, List.filter (fun y => String.eqb (key y) (key x)) l) (groupBy key l)).
Proof.
  induction l as [|x l IH] using rev_ind.
  - split; [constructor|]. split; [intros k xs []|intros x []].
  - destruct IH as (Hnd & Hgroups & Hall). rewrite groupBy_snoc.
    split; [now apply addToGroup_NoDup|]. split.
    + intros k xs Hin. apply addToGroup_In in Hin.
      rewrite List.filter_app. simpl.
      destruct Hin as [[Hne Hin]|[-> [(xs0 & Hin & ->)|[Hnot ->]]]].
      * destruct (Hgroups k xs Hin) as [-> Hnonempty].
        destruct (String.eqb_spec (key x) k) as [Heq|_]; [congruence|].
        now rewrite app_nil_r.
      * destruct (Hgroups _ _ Hin) as [-> _]. rewrite String.eqb_refl.
        split; [reflexivity|]. intros H. apply app_eq_nil in H as [_ H]. discriminate.
      * rewrite String.eqb_refl.
        assert (Hempty : List.filter (fun y => String.eqb (key y) (key x)) l = []).
        { destruct (List.filter (fun y => String.eqb (key y) (key x)) l) as [|y ys] eqn:Hf;
            [reflexivity|]. exfalso.
          assert (Hy : In y (List.filter (fun y => String.eqb (key y) (key x)) l))
            by (rewrite Hf; now left).
          apply List.filter_In in Hy as [Hy Hk]. apply String.eqb_eq in Hk.
          apply Hnot. rewrite <- Hk. exact (in_map fst _ _ (Hall y Hy)). }
        rewrite Hempty. split; [reflexivity|discriminate].
    + intros y Hy. apply addToGroup_In. rewrite List.filter_app. simpl.
      destruct (String.eqb_spec (key x) (key y)) as [Heq|Hne].
      * right. split; [congruence|]. apply in_app_or in Hy as [Hy|[<-|[]]].
        -- left. exists (List.filter (fun z => String.eqb (key z) (key y)) l).
           split; [rewrite Heq; apply Hall, Hy|reflexivity].
        -- destruct (in_dec string_dec (key x) (map fst (groupBy key l))) as [Hin|Hnot].
           ++ left. apply in_map_iff in Hin as ([k xs] & Hk & Hin). simpl in Hk. subst k.
              destruct (Hgroups _ _ Hin) as [-> _].
              eexists. split; [exact Hin|reflexivity].
           ++ right. split; [exact Hnot|].
              destruct (List.filter (fun z => String.eqb (key z) (key x)) l) as [|z zs] eqn:Hf;
                [reflexivity|]. exfalso.
              assert (Hz : In z (List.filter (fun z => String.eqb (key z) (key x)) l))
                by (rewrite Hf; now left).
              apply List.filter_In in Hz as [Hz Hk]. apply String.eqb_eq in Hk.
              apply Hnot. rewrite <- Hk. exact (in_map fst _ _ (Hall z Hz)).
      * left. split; [congruence|]. rewrite app_nil_r.
        apply in_app_or in Hy as [Hy|[<-|[]]]; [apply Hall, Hy|congruence].
Qed.

Lemma addToGroup_keys_last {A} (k : string) (x : A) groups :
  arrayIndex k = None ->
  map fst (addToGroup k x groups) =
  if existsb (String.eqb k) (map fst groups) then map fst groups
  else (map fst groups ++ [k])%list.
Proof.
  intros Hk. unfold addToGroup, upsert, hasOwn.
  destruct (existsb (String.eqb k) (map fst groups)).
  - rewrite map_map. apply map_ext. intros [k' xs]. simpl. now destruct (String.eqb k k').
  - rewrite (insertNew_last _ _ _ Hk), map_app. reflexivity.
Qed.

(** Keys that are no array indices keep the order they first appear in. *)
Lemma groupBy_keys_in_order {A} (key : A -> string) (l : list A) :
  Forall (fun x => arrayIndex (key x) = None) l ->
  map fst (groupBy key l) = firstAppearances (map key l).
Proof.
  unfold groupBy, firstAppearances.
  assert (H : forall groups,
            Forall (fun x => arrayIndex (key x) = None) l ->
            map fst (fold_left (fun gs x => addToGroup (key x) x gs) l groups) =
            fold_left (fun seen k => if existsb (String.eqb k) seen then seen
                                     else (seen ++ [k])%list)
                      (map key l) (map fst groups)).
  { induction l as [|x l IH]; intros groups Hall; [reflexivity|].
    inversion Hall as [|? ? Hx Hrest]; subst. simpl. rewrite (IH _ Hrest).
    now rewrite (addToGroup_keys_last _ _ _ Hx). }
  apply (H []).
Qed.

(** The groups come in the order of the keys of an object. *)
Lemma groupBy_inKeyOrder {A} (key : A -> string) (l : list A) :
  inKeyOrder (map fst (groupBy key l)).
Proof.
  induction l as [|x l IH] using rev_ind; [exact I|].
  rewrite groupBy_snoc. now apply upsert_inKeyOrder.
Qed.

Lemma filter_length_In {A} (pred : A -> bool) (l : list A) (x : A) :
  In x l -> pred x = true -> (1 <= length (List.filter pred l))%nat.
Proof.
  intros Hin Hx. assert (H : In x (List.filter pred l)) by (apply List.filter_In; auto).
  destruct (List.filter pred l); [destruct H|simpl; lia].
Qed.

Lemma NoDup_keys_count {A} (key : A -> string) (l : list A) :
  List.NoDup (map key l) <->
  forall k, (length (List.filter (fun y => String.eqb (key y) k) l) <= 1)%nat.
Proof.
  induction l as [|x l IH]; simpl.
  - split; [intros _ k; lia|constructor].
  - split.
    + intros Hnd k. inversion Hnd as [|? ? Hfresh Hnd']; subst.
      pose proof (proj1 IH Hnd' k) as Hk.
      destruct (String.eqb_spec (key x) k) as [<-|_]; [|exact Hk]. simpl.
      destruct (List.filter (fun y => String.eqb (key y) (key x)) l) as [|y ys] eqn:Hf;
        [simpl; lia|]. exfalso.
      assert (Hy : In y (List.filter (fun y => String.eqb (key y) (key x)) l))
        by (rewrite Hf; now left).
      apply List.filter_In in Hy as [Hy Hk']. apply String.eqb_eq in Hk'.
      apply Hfresh. rewrite <- Hk'. now apply in_map.
    + intros Hcount. constructor.
      * intros Hin. apply in_map_iff in Hin as (y & Hy & Hin).
        specialize (Hcount (key x)). rewrite String.eqb_refl in Hcount. simpl in Hcount.
        pose proof (filter_length_In (fun z => String.eqb (key z) (key x)) l y Hin) as H.
        simpl in H. rewrite Hy, String.eqb_refl in H. specialize (H eq_refl). lia.
      * apply IH. intros k. specialize (Hcount k).
        destruct (String.eqb (key x) k); simpl in Hcount; lia.
Qed.

Lemma duplicateGroups_In {A} (key : A -> string) (l : list A) (group : list A) :
  In group (duplicateGroups key l) <->
  exists k, In (k, group) (groupBy key l) /\ (2 <= length group)%nat.
Proof.
  unfold duplicateGroups. rewrite List.filter_In, in_map_iff. split.
  - intros [([k xs] & <- & Hin) Hlen]. exists k. split; [exact Hin|].
    apply Nat.ltb_lt in Hlen. exact Hlen.
  - intros (k & Hin & Hlen). split.
    + exists (k, group). auto.
    + apply Nat.ltb_lt. exact Hlen.
Qed.

(** No group of duplicates exactly when the keys do not repeat. *)
Lemma duplicateGroups_nil_iff {A} (key : A -> string) (l : list A) :
  duplicateGroups key l = [] <-> List.NoDup (map key l).
Proof.
  destruct (groupBy_spec key l) as (_ & Hgroups & Hall). split.
  - intros Hnil. apply NoDup_keys_count. intros k.
    destruct (List.filter (fun y => String.eqb (key y) k) l) as [|x xs] eqn:Hf; [simpl; lia|].
    assert (Hx : In x (List.filter (fun y => String.eqb (key y) k) l)) by (rewrite Hf; now left).
    apply List.filter_In in Hx as [Hx Hk]. apply String.eqb_eq in Hk. subst k.
    destruct (le_lt_dec (length (x :: xs)) 1) as [Hle|Hgt]; [exact Hle|]. exfalso.
    assert (Hin : In (x :: xs) (duplicateGroups key l)).
    { apply duplicateGroups_In. exists (key x). split; [|lia]. rewrite <- Hf. apply Hall, Hx. }
    rewrite Hnil in Hin. destruct Hin.
  - intros Hnd. destruct (duplicateGroups key l) as [|group rest] eqn:Hd; [reflexivity|].
    exfalso. assert (Hin : In group (duplicateGroups key l)) by (rewrite Hd; now left).
    apply duplicateGroups_In in Hin as (k & Hin & Hlen).
    destruct (Hgroups k group Hin) as [-> _].
    pose proof (proj1 (NoDup_keys_count key l) Hnd k). lia.
Qed.

Lemma duplicateGroups_NoDup {A} (key : A -> string) (l : list A) :
  List.NoDup (map key l) -> duplicateGroups key l = [].
Proof. apply duplicateGroups_nil_iff. Qed.

End GroupingFacts.

(** ** Properties of the generator *)

Section GeneratorFacts.
Import Generator.

Lemma reportAll_app (ds1 ds2 : list Diagnostic) (s : GenState) :
  reportAll (ds1 ++ ds2) s = reportAll ds2 (reportAll ds1 s).
Proof. unfold reportAll. apply fold_left_app. Qed.

Lemma reportAll_printed (ds : list Diagnostic) (s : GenState) :
  printed (reportAll ds s) = (printed s ++ ds)%list.
Proof.
  revert s. induction ds as [|d ds IH]; intros s; simpl.
  - now rewrite app_nil_r.
  - change (fold_left _ ds (report d s)) with (reportAll ds (report d s)).
    rewrite IH. simpl. now rewrite <- app_assoc.
Qed.

Lemma reportAll_flag (ds : list Diagnostic) (s : GenState) :
  errorFlag (reportAll ds s) =
  match ds with [] => errorFlag s | _ => true end.
Proof.
  revert s. induction ds as [|d ds IH]; intros s; simpl; [reflexivity|].
  change (fold_left _ ds (report d s)) with (reportAll ds (report d s)).
  rewrite IH. now destruct ds.
Qed.

(** The flag is raised exactly when something was printed: every
    [console.error] of [main] comes with [errorFlag = true]. *)
Lemma flag_iff_printed (ds : list Diagnostic) :
  errorFlag (reportAll ds initialState) = false <-> printed (reportAll ds initialState) = [].
Proof.
  rewrite reportAll_flag, reportAll_printed. simpl.
  destruct ds; simpl; split; intros H; congruence.
Qed.

(** The scan of a list of methods, against the stateless reading: the
    records and the diagnostics of all of them, unless one throws. *)
Lemma scanSites_spec (service kebab : string) sites (s : GenState) :
  match scanSites service kebab sites s with
  | (Ok infos, s') =>
      infos = flat_map (siteRecords service kebab) sites /\
      s' = reportAll (flat_map (siteDiagnostics service kebab) sites) s
  | (Throw _, s') => exists ds, s' = reportAll ds s
  end.
Proof.
  revert s. induction sites as [|[[file classNode] method] rest IH]; intros s.
  - simpl. split; reflexivity.
  - cbn [scanSites flat_map siteRecords siteDiagnostics].
    destruct (processMethod service kebab file classNode method) as [[|d|info]|e].
    + exact (IH s).
    + specialize (IH (report d s)).
      destruct (scanSites service kebab rest (report d s)) as [[infos|e] s'].
      * destruct IH as [-> ->]. split; reflexivity.
      * destruct IH as [ds ->]. exists (d :: ds). reflexivity.
    + specialize (IH s).
      destruct (scanSites service kebab rest s) as [[infos|e] s'].
      * destruct IH as [-> ->]. split; reflexivity.
      * exact IH.
    + exists []. reflexivity.
Qed.

Lemma scanModule_spec (m : ServiceModule) (s : GenState) :
  match scanModule m s with
  | (Ok _, s') => s' = reportAll (moduleDiagnostics m) s
  | (Throw _, s') => exists ds, s' = reportAll ds s
  end.
Proof.
  unfold scanModule, moduleDiagnostics.
  pose proof (scanSites_spec (serviceNameOf m) (Remeda.toKebabCase (serviceNameOf m))
                (handlerSites (controllers m)) s) as H.
  destruct (scanSites _ _ _ s) as [[infos|e] s'].
  - destruct H as [<- ->]. destruct infos as [|info infos].
    + now rewrite app_nil_r.
    + now rewrite reportAll_app.
  - exact H.
Qed.

Lemma scanModules_spec modules acc (s : GenState) :
  match scanModules modules acc s with
  | (Ok _, _, s') => s' = reportAll (flat_map moduleDiagnostics modules) s
  | (Throw _, _, s') => exists ds, s' = reportAll ds s
  end.
Proof.
  revert acc s. induction modules as [|m rest IH]; intros acc s; simpl.
  - reflexivity.
  - pose proof (scanModule_spec m s) as H.
    destruct (scanModule m s) as [[[methods|]|e] s'].
    + subst s'. specialize (IH (set_field (modulePath m) methods acc)
                               (reportAll (moduleDiagnostics m) s)).
      destruct (scanModules rest _ _) as [[[r|e] byModule] s''].
      * now rewrite reportAll_app.
      * destruct IH as [ds ->]. exists (moduleDiagnostics m ++ ds)%list.
        now rewrite reportAll_app.
    + subst s'. specialize (IH acc (reportAll (moduleDiagnostics m) s)).
      destruct (scanModules rest _ _) as [[[r|e] byModule] s''].
      * now rewrite reportAll_app.
      * destruct IH as [ds ->]. exists (moduleDiagnostics m ++ ds)%list.
        now rewrite reportAll_app.
    + exact H.
Qed.

(** Whatever happens, the final state of [main] is the initial one after
    some reports. *)
Lemma main_state modules :
  exists ds, finalState (main modules) = reportAll ds initialState.
Proof.
  unfold main. pose proof (scanModules_spec modules [] initialState) as H.
  destruct (scanModules modules [] initialState) as [[[u|e] byModule] s]; simpl.
  - subst s. eexists. rewrite <- reportAll_app. reflexivity.
  - exact H.
Qed.

(** A handler annotation with its routing-key argument never makes the
    callback throw. *)
Lemma processMethod_returns service kebab file classNode method :
  hasRoutingKey (file, classNode, method) = true ->
  exists x, processMethod service kebab file classNode method = Ok x.
Proof.
  unfold hasRoutingKey, processMethod. simpl.
  destruct (List.find _ (getDecorators method)) as [d|]; [|now eexists].
  destruct (getArguments d) as [|patternExpr args]; [discriminate|]. intros _.
  destruct (_ && negb (isStringLike _)); [now eexists|].
  destruct (negb _ && startsWith _ _); [now eexists|].
  destruct (resolvePattern patternExpr); [|now eexists].
  destruct (_ && negb _); now eexists.
Qed.

Lemma scanSites_returns service kebab sites (s : GenState) :
  (forall site, In site sites -> hasRoutingKey site = true) ->
  exists infos s', scanSites service kebab sites s = (Ok infos, s').
Proof.
  revert s. induction sites as [|[[file classNode] method] rest IH]; intros s Hall.
  - now eexists _, _.
  - destruct (processMethod_returns service kebab file classNode method) as [x Hx].
    { apply Hall. now left. }
    assert (Hrest : forall site, In site rest -> hasRoutingKey site = true).
    { intros site Hin. apply Hall. now right. }
    simpl. rewrite Hx. destruct x as [|d|info].
    + apply IH, Hrest.
    + apply IH, Hrest.
    + destruct (IH s Hrest) as (infos & s' & ->). now eexists _, _.
Qed.

Lemma scanModules_returns modules acc (s : GenState) :
  (forall m site, In m modules -> In site (handlerSites (controllers m)) ->
                  hasRoutingKey site = true) ->
  groupsNonEmpty acc ->
  exists byModule s',
    scanModules modules acc s = (Ok tt, byModule, s') /\ groupsNonEmpty byModule.
Proof.
  revert acc s. induction modules as [|m rest IH]; intros acc s Hall Hacc.
  - simpl. now eexists _, _.
  - assert (Hrest : forall m' site, In m' rest ->
              In site (handlerSites (controllers m')) -> hasRoutingKey site = true).
    { intros m' site Hin. apply Hall. now right. }
    simpl. unfold scanModule.
    destruct (scanSites_returns (serviceNameOf m) (Remeda.toKebabCase (serviceNameOf m))
                (handlerSites (controllers m)) s) as (infos & s' & ->).
    { intros site. apply Hall. now left. }
    destruct infos as [|info infos].
    + apply IH; assumption.
    + apply IH; [assumption|]. apply set_field_nonEmpty; [|assumption].
      unfold aliasDuplicateClassNames. simpl. discriminate.
Qed.

Lemma patternMapOf_returns byModule acc :
  groupsNonEmpty byModule -> exists pm, patternMapOf byModule acc = Ok pm.
Proof.
  revert acc. induction byModule as [|[k group] rest IH]; intros acc Hall; simpl.
  - now eexists.
  - inversion Hall as [|? ? Hgroup Hrest]; subst. simpl in Hgroup.
    destruct group as [|first others]; [contradiction|]. apply IH, Hrest.
Qed.

(** [main] returns when every handler annotation has its routing key. *)
Lemma main_returns modules :
  (forall m site, In m modules -> In site (handlerSites (controllers m)) ->
                  hasRoutingKey site = true) ->
  exists pm, returned (main modules) = Ok pm.
Proof.
  intros Hall. unfold main.
  destruct (scanModules_returns modules [] initialState Hall) as (byModule & s' & -> & Hne).
  { constructor. }
  simpl. apply patternMapOf_returns, Hne.
Qed.

Lemma main_printed modules pm :
  returned (main modules) = Ok pm ->
  printed (finalState (main modules)) =
  (flat_map moduleDiagnostics modules ++ duplicateServiceDiagnostics modules)%list.
Proof.
  unfold main. pose proof (scanModules_spec modules [] initialState) as H.
  destruct (scanModules modules [] initialState) as [[[u|e] byModule] s]; simpl.
  - intros _. subst s. rewrite <- reportAll_app. now rewrite reportAll_printed.
  - discriminate.
Qed.

(** A method without handler annotation is passed over in silence. *)
Lemma not_a_handler service kebab site :
  isHandler site = false ->
  siteDiagnostics service kebab site = [] /\ siteRecords service kebab site = [] /\
  hasRoutingKey site = true.
Proof.
  destruct site as [[file classNode] method].
  unfold isHandler, siteDiagnostics, siteRecords, hasRoutingKey, processMethod. simpl.
  destruct (List.find _ (getDecorators method)) as [d|]; [|auto].
  intros H. apply bool_decide_eq_false in H. exfalso. apply H. now eexists.
Qed.

Lemma no_handlers_no_diagnostics (m : ServiceModule) :
  (forall site, In site (handlerSites (controllers m)) -> isHandler site = false) ->
  moduleDiagnostics m = [].
Proof.
  intros Hnone. unfold moduleDiagnostics.
  set (service := serviceNameOf m). set (kebab := Remeda.toKebabCase service).
  assert (Hd : flat_map (siteDiagnostics service kebab) (handlerSites (controllers m)) = []
               /\ flat_map (siteRecords service kebab) (handlerSites (controllers m)) = []).
  { induction (handlerSites (controllers m)) as [|site sites IH]; simpl; [auto|].
    destruct (not_a_handler service kebab site) as (-> & -> & _).
    { apply Hnone. now left. }
    simpl. apply IH. intros site' Hin. apply Hnone. now right. }
  destruct Hd as [-> ->]. reflexivity.
Qed.

End GeneratorFacts.

Section GeneratorClaims.
Import Generator Examples.

Lemma valueFromType_literals (lits : list LiteralValue) props :
  valueFromType (TyTuple false (map TyLiteral lits) props) =
  Ok (JArr (map literalToValue lits)).
Proof.
  induction lits as [|lit lits IH]; [reflexivity|].
  simpl in *.
  destruct ((fix mapElements (ts : list Ty) : result (list value) := _) (map TyLiteral lits))
    as [vs|e]; [|discriminate].
  now injection IH as ->.
Qed.

Lemma inhabitant_literal (lit : LiteralValue) :
  isStringOrNumber lit = true -> inhabitant lit = Some (literalToValue lit).
Proof. destruct lit; [reflexivity|reflexivity|discriminate]. Qed.

Lemma inhabitants_literals (lits : list LiteralValue) :
  Forall (fun lit => isStringOrNumber lit = true) lits ->
  Forall2 (fun lit v => inhabitant lit = Some v) lits (map literalToValue lits).
Proof.
  induction 1 as [|lit lits Hlit Hrest IH]; simpl; constructor; [|exact IH].
  now apply inhabitant_literal.
Qed.




(** A bigint literal type collapses to the compiler's record of the
    literal, which is not the inhabitant of the type. *)
Lemma bigint_member_is_a_record (negative : bool) (digits : string) :
  valueFromType (TyLiteral (LBigInt negative digits)) =
  Ok (JObj [("negative", JBool negative); ("base10Value", JStr digits)]).
Proof. reflexivity. Qed.

Lemma isQuote_cases (q : ascii) :
  isQuote q = true -> q = "'"%char \/ q = Json.dquote \/ q = "`"%char.
Proof.
  unfold isQuote. intros H.
  apply orb_true_iff in H as [H|H]; [apply orb_true_iff in H as [H|H]|];
    apply Ascii.eqb_eq in H; auto.
Qed.

Lemma users_created_matches (q : ascii) :
  isQuote q = true ->
  eventPatternMatch "users" (String q ("users.created" +:+ String q "")) = Some "created" /\
  eventPatternMatch "accounts" (String q ("users.created" +:+ String q "")) = None.
Proof.
  intros H. destruct (isQuote_cases q H) as [->|[->| ->]]; split; reflexivity.
Qed.

(** C5. An event handler whose routing key resolves to users.created (in
    any of the three quotes) is accepted in the service whose kebab-case
    name is users, with the client method name emitCreated; in the service
    accounts the same key gets the format diagnostic and no record. *)
Theorem event_key_of_own_service
    (service : string) (file : SourceFile) (classNode : ClassDecl) (method : MethodDecl)
    (d : Decorator) (e : PatternExpr) (args : list PatternExpr) (q : ascii) :
  List.find (isDecoratorOneOf ["MessagePattern"; "EventPattern"]) (getDecorators method)
    = Some d ->
  calleeIdentifier d = Some "EventPattern" ->
  getArguments d = e :: args ->
  isStringLike (typeAtLocation e) = true ->
  isQuote q = true ->
  resolvePattern e = Ok (String q ("users.created" +:+ String q "")) ->
  (exists info,
      processMethod service "users" file classNode method = Ok (Extracted info) /\
      isEventHandler info = true /\
      eventName info = Some "created" /\
      clientMethodName info = "emitCreated" /\
      entryKey (patternEntry info) = "emitCreated") /\
  processMethod service "accounts" file classNode method =
    Ok (Rejected (EventPatternFormat (String q ("users.created" +:+ String q ""))
                                     (getFilePath file) (exprPos e))).
Proof.
  intros Hfind Hcallee Hargs Hlike Hq Hresolve.
  destruct (users_created_matches q Hq) as [Husers Haccounts].
  unfold processMethod. rewrite Hfind, Hcallee, Hargs, Hlike, Hresolve.
  rewrite Husers, Haccounts.
  change (String.eqb "EventPattern" "EventPattern") with true. cbn [negb andb].
  split.
  - rewrite bool_decide_eq_true_2 by (now eexists). cbn [negb].
    eexists. split; [reflexivity|]. repeat split; reflexivity.
  - rewrite bool_decide_eq_false_2; [reflexivity|]. intros [x Hx]. discriminate.
Qed.

Lemma event_key_of_own_service_witness :
  (exists info,
      processMethod "Users" "users" usersController
        (controllerClass "UsersController" []) onCreated = Ok (Extracted info) /\
      clientMethodName info = "emitCreated") /\
  exists diagnostic,
    processMethod "Accounts" "accounts" usersController
      (controllerClass "UsersController" []) onCreated = Ok (Rejected diagnostic).
Proof.
  split.
  - destruct (event_key_of_own_service "Users" usersController
                (controllerClass "UsersController" []) onCreated
                (annotation "EventPattern" (inlineKey "users.created"))
                (inlineKey "users.created") [] Json.dquote
                eq_refl eq_refl eq_refl eq_refl eq_refl eq_refl)
      as [(info & Hinfo & _ & _ & Hname & _) _].
    exists info. split; assumption.
  - eexists.
    exact (proj2 (event_key_of_own_service "Accounts" usersController
                (controllerClass "UsersController" []) onCreated
                (annotation "EventPattern" (inlineKey "users.created"))
                (inlineKey "users.created") [] Json.dquote
                eq_refl eq_refl eq_refl eq_refl eq_refl eq_refl)).
Defined.

End GeneratorClaims.

Section ScanClaims.
Import Generator Examples.

Lemma scanSites_app (service kebab : string) before after (s : GenState) :
  scanSites service kebab (before ++ after) s =
  match scanSites service kebab before s with
  | (Ok infos, s1) =>
      match scanSites service kebab after s1 with
      | (Ok infos', s2) => (Ok (infos ++ infos')%list, s2)
      | (Throw e, s2) => (Throw e, s2)
      end
  | (Throw e, s1) => (Throw e, s1)
  end.
Proof.
  revert s. induction before as [|[[file classNode] method] rest IH]; intros s.
  - simpl. now destruct (scanSites service kebab after s) as [[infos|e] s'].
  - simpl. destruct (processMethod service kebab file classNode method) as [[|d|info]|e].
    + apply IH.
    + apply IH.
    + rewrite IH. destruct (scanSites service kebab rest s) as [[infos|e] s1]; [|reflexivity].
      now destruct (scanSites service kebab after s1) as [[infos'|e] s2].
    + reflexivity.
Qed.

(** C9, as amended. A method whose handler annotation is MessagePattern,
    called with its routing-key argument, and whose name starts with emit
    is answered by the one reserved-prefix diagnostic and no record; in a
    scan the methods before it and after it are processed as they would be
    without it, the diagnostic being printed in between. *)
Theorem reserved_prefix_rejected
    (service kebab : string) (file : SourceFile) (classNode : ClassDecl)
    (method : MethodDecl) (d : Decorator) (e : PatternExpr) (args : list PatternExpr) :
  List.find (isDecoratorOneOf ["MessagePattern"; "EventPattern"]) (getDecorators method)
    = Some d ->
  calleeIdentifier d = Some "MessagePattern" ->
  getArguments d = e :: args ->
  startsWith (getName method) "emit" = true ->
  let diagnostic := ReservedPrefix (getName method) (getFilePath file) (namePos method) in
  processMethod service kebab file classNode method = Ok (Rejected diagnostic) /\
  siteDiagnostics service kebab (file, classNode, method) = [diagnostic] /\
  siteRecords service kebab (file, classNode, method) = [] /\
  forall before after (s : GenState),
    scanSites service kebab (before ++ (file, classNode, method) :: after) s =
    match scanSites service kebab before s with
    | (Ok infos, s1) =>
        match scanSites service kebab after (report diagnostic s1) with
        | (Ok infos', s2) => (Ok (infos ++ infos')%list, s2)
        | (Throw err, s2) => (Throw err, s2)
        end
    | (Throw err, s1) => (Throw err, s1)
    end.
Proof.
  intros Hfind Hcallee Hargs Hemit diagnostic.
  assert (Hp : processMethod service kebab file classNode method = Ok (Rejected diagnostic)).
  { unfold processMethod. rewrite Hfind, Hcallee, Hargs, Hemit.
    change (String.eqb "MessagePattern" "EventPattern") with false. reflexivity. }
  split; [exact Hp|]. unfold siteDiagnostics, siteRecords. rewrite Hp.
  split; [reflexivity|]. split; [reflexivity|].
  intros before after s. rewrite scanSites_app. simpl. rewrite Hp. reflexivity.
Qed.

Lemma reserved_prefix_rejected_witness :
  printed (finalState (main [usersModule])) =
    [ReservedPrefix "emitWelcome" "/repo/apps/users/src/users.controller.ts" "13:3"] /\
  map (fun group => map methodName (snd group)) (collected (main [usersModule])) =
    [["onCreated"; "findOrder"]].
Proof.
  pose proof (reserved_prefix_rejected "Users" "users" usersController
                (controllerClass "UsersController" [onCreated; emitWelcome; findOrder])
                emitWelcome (annotation "MessagePattern" (inlineKey "welcome"))
                (inlineKey "welcome") [] eq_refl eq_refl eq_refl eq_refl)
    as (_ & _ & _ & Hscan).
  pose proof (Hscan [(usersController,
                      controllerClass "UsersController" [onCreated; emitWelcome; findOrder],
                      onCreated)]
                    [(usersController,
                      controllerClass "UsersController" [onCreated; emitWelcome; findOrder],
                      findOrder)]
                    initialState) as Hrun.
  unfold main, scanModules, scanModule.
  change (handlerSites (controllers usersModule)) with
    ([(usersController,
       controllerClass "UsersController" [onCreated; emitWelcome; findOrder], onCreated)] ++
     (usersController,
      controllerClass "UsersController" [onCreated; emitWelcome; findOrder], emitWelcome) ::
     [(usersController,
       controllerClass "UsersController" [onCreated; emitWelcome; findOrder], findOrder)])%list.
  change (serviceNameOf usersModule) with "Users".
  change (Remeda.toKebabCase "Users") with "users".
  rewrite Hrun. split; reflexivity.
Defined.

(** C9, the statement as written fails: emitReport is a request handler
    with the reserved prefix, but its annotation is called without
    argument, so asking for the type of the routing key throws before the
    prefix is looked at. No diagnostic is printed for it, and the scan
    does not continue: the module after it, whose own handler emitWelcome
    would get the diagnostic, is never scanned. *)
Lemma bare_reserved_prefix_is_not_reported :
  startsWith (getName emitReport) "emit" = true /\
  List.find (isDecoratorOneOf ["MessagePattern"; "EventPattern"]) (getDecorators emitReport)
    = Some {| calleeIdentifier := Some "MessagePattern"; getArguments := [] |} /\
  processMethod "Reports" "reports" reportsController
    (controllerClass "ReportsController" [emitReport]) emitReport
    = Throw "TypeError: cannot read properties of undefined" /\
  printed (finalState (main [reportsModule; usersModule])) = [] /\
  collected (main [reportsModule; usersModule]) = [] /\
  moduleDiagnostics usersModule =
    [ReservedPrefix "emitWelcome" "/repo/apps/users/src/users.controller.ts" "13:3"].
Proof. repeat split; reflexivity. Qed.

Lemma findIndex_none {A} (pred : A -> bool) (l : list A) :
  existsb pred l = false -> findIndex pred l = (-1)%Z.
Proof.
  induction l as [|x l IH]; simpl; [reflexivity|].
  destruct (pred x); simpl; [discriminate|]. intros H. now rewrite (IH H).
Qed.

Lemma findIndex_first {A} (pred : A -> bool) (l : list A) :
  existsb pred l = true ->
  exists i x,
    findIndex pred l = Z.of_nat i /\ nth_error l i = Some x /\ pred x = true /\
    forall j y, (j < i)%nat -> nth_error l j = Some y -> pred y = false.
Proof.
  induction l as [|x l IH]; simpl; [discriminate|].
  destruct (pred x) eqn:Hx; simpl.
  - intros _. exists 0%nat, x. repeat split; auto. intros j y Hj. lia.
  - intros H. destruct (IH H) as (i & y & Hi & Hnth & Hy & Hbefore).
    exists (S i), y. rewrite Hi.
    replace (Z.of_nat i =? -1)%Z with false by (symmetry; apply Z.eqb_neq; lia).
    repeat split; auto; [lia|].
    intros [|j] z Hj Hz; simpl in Hz.
    + now injection Hz as <-.
    + apply (Hbefore j z); [lia|exact Hz].
Qed.

Lemma payloadIndex_cases (parameters : list ParameterDecl) :
  (payloadIndex parameters <> (-1)%Z <-> parameters <> []) /\
  (existsb isPayloadParameter parameters = false -> parameters <> [] ->
   payloadIndex parameters = 0%Z) /\
  (existsb isPayloadParameter parameters = true ->
   payloadIndex parameters = findIndex isPayloadParameter parameters).
Proof.
  unfold payloadIndex.
  destruct (existsb isPayloadParameter parameters) eqn:Hex.
  - destruct (findIndex_first _ _ Hex) as (i & x & Hi & Hnth & _).
    rewrite Hi.
    replace (Z.of_nat i =? -1)%Z with false by (symmetry; apply Z.eqb_neq; lia).
    rewrite andb_false_r. repeat split; try discriminate; intros H; try lia.
    destruct parameters; [destruct i; discriminate|discriminate].
  - rewrite (findIndex_none _ _ Hex). simpl. rewrite andb_true_r.
    destruct parameters as [|p ps]; simpl; repeat split; intros; try congruence; try lia;
      discriminate.
Qed.

Lemma processMethod_extracted service kebab file classNode method info :
  processMethod service kebab file classNode method = Ok (Extracted info) ->
  paramIndex info = payloadIndex (getParameters method) /\
  methodName info = getName method /\
  serviceName info = service.
Proof.
  unfold processMethod.
  destruct (List.find _ (getDecorators method)) as [d|]; [|discriminate].
  destruct (getArguments d) as [|patternExpr args]; [discriminate|].
  destruct (_ && negb (isStringLike _)); [discriminate|].
  destruct (negb _ && startsWith _ _); [discriminate|].
  destruct (resolvePattern patternExpr); [|discriminate].
  destruct (_ && negb _); [discriminate|].
  intros H. injection H as <-. auto.
Qed.

End ScanClaims.

Section ExitCodeClaim.
Import Generator Examples.

(** Whatever the run does, the process exits with 0 exactly when
    console.error received nothing, the exception of a run that throws
    included. *)
Lemma exit_zero_iff_silent (modules : list ServiceModule) :
  exitCode (main modules) = 0%Z <-> consoleErrors (main modules) = [].
Proof.
  unfold exitCode, consoleErrors.
  destruct (main_state modules) as [ds Hstate].
  destruct (returned (main modules)) as [pm|e].
  - rewrite app_nil_r, Hstate.
    pose proof (flag_iff_printed ds) as Hflag.
    destruct (errorFlag (reportAll ds initialState)).
    + split; [discriminate|]. intros Hnil.
      apply map_eq_nil in Hnil. apply Hflag in Hnil. discriminate.
    + split; [|reflexivity]. intros _.
      rewrite (proj1 Hflag eq_refl). reflexivity.
  - split; [discriminate|]. intros Hnil. apply app_eq_nil in Hnil as [_ Hnil].
    discriminate.
Qed.




End ExitCodeClaim.

(** ** Properties of the runtime *)

Section RuntimeFacts.
Import Runtime Examples.
#[local] Open Scope N_scope.

Lemma attempt_bounded (tr : Transport) (i : nat) (t : N) :
  fst (attempt tr i t) <= 2000.
Proof.
  unfold attempt. destruct (connectOutcome tr i t) as [d v|d r|]; simpl; try lia;
    destruct (d <=? 2000) eqn:Hd; simpl; try lia; apply N.leb_le in Hd; lia.
Qed.

(** A promise rejected before the 2000 ms are over fails the attempt with
    its reason, at that instant. *)
Lemma attempt_rejected (tr : Transport) (i : nat) (t d : N) (r : value) :
  connectOutcome tr i t = Rejects d r -> d < 2000 -> attempt tr i t = (d, inr (Reason r)).
Proof.
  unfold attempt. intros -> Hd.
  replace (d <=? 2000) with true by (symmetry; apply N.leb_le; lia). reflexivity.
Qed.

(** A promise that is not settled when the 2000 ms are over fails the
    attempt with the timeout error, at 2000 ms. *)
Lemma attempt_timed_out (tr : Transport) (i : nat) (t : N) :
  match connectOutcome tr i t with
  | Resolves d _ | Rejects d _ => 2000 < d
  | NeverSettles => True
  end ->
  attempt tr i t = (2000, inr TimeoutError).
Proof.
  unfold attempt. destruct (connectOutcome tr i t) as [d v|d r|]; intros Hd; [| |reflexivity];
    replace (d <=? 2000) with false by (symmetry; apply N.leb_gt; lia); reflexivity.
Qed.

Lemma attempt_fails (tr : Transport) (i : nat) (t : N) :
  failsToConnect (connectOutcome tr i t) -> exists d f, attempt tr i t = (d, inr f).
Proof.
  unfold attempt, failsToConnect. destruct (connectOutcome tr i t) as [d v|d r|]; intros Hd.
  - replace (d <=? 2000) with false by (symmetry; apply N.leb_gt; lia). now eexists _, _.
  - destruct (d <=? 2000); now eexists _, _.
  - now eexists _, _.
Qed.

Lemma attempt_connects (tr : Transport) (i : nat) (t : N) :
  connectsInTime (connectOutcome tr i t) -> exists d v, attempt tr i t = (d, inl v).
Proof.
  unfold attempt, connectsInTime. destruct (connectOutcome tr i t) as [d v|d r|]; intros Hd;
    try contradiction.
  replace (d <=? 2000) with true by (symmetry; apply N.leb_le; lia). now eexists _, _.
Qed.

(** The last [tap] passes an error with a message on as it is, and one
    without as the exception of the read. *)
Lemma surfaced_cases (f : Failure) :
  (f <> Reason JUndefined -> f <> Reason JNull -> surfaced f = f) /\
  (forall r, messageReadable r -> surfaced (Reason r) = Reason r) /\
  surfaced TimeoutError = TimeoutError /\
  (exists message, surfaced (Reason JUndefined) = TypeError message) /\
  (exists message, surfaced (Reason JNull) = TypeError message).
Proof.
  split; [|split; [|split; [reflexivity|split; now eexists]]].
  - intros Hu Hn. unfold surfaced, readMessage.
    destruct f as [| | | |r]; try reflexivity. destruct r; try reflexivity; congruence.
  - intros r [Hu Hn]. unfold surfaced, readMessage. destruct r; try reflexivity; congruence.
Qed.

Lemma connection_gives_up (tr : Transport) (i : nat) (t d : N) (f : Failure) :
  attempt tr i t = (d, inr f) ->
  exists events,
    connection tr 0 i t = (events, S i, GaveUp (t + d) (surfaced f)) /\
    List.filter isConnectCalled events = [ConnectCalled t] /\
    List.filter isDispatched events = [].
Proof.
  intros Ha. cbn [connection]. rewrite Ha. unfold surfaced.
  destruct (readMessage f); eexists; repeat split; reflexivity.
Qed.

(** [retry] over a transport that always fails: the first subscription
    and one more per retry, then the failure of the last attempt. *)
Lemma connection_fails (tr : Transport) :
  alwaysFails tr ->
  forall (retries i : nat) (t : N),
  exists events tLast d f,
    connection tr retries i t = (events, (i + S retries)%nat, GaveUp (tLast + d) (surfaced f)) /\
    attempt tr (i + retries)%nat tLast = (d, inr f) /\
    length (List.filter isConnectCalled events) = S retries /\
    List.filter isDispatched events = [] /\
    t + 3000 * N.of_nat retries <= tLast /\
    tLast <= t + 5000 * N.of_nat retries.
Proof.
  intros Hfails. induction retries as [|k IH]; intros i t.
  - destruct (attempt_fails tr i t (Hfails i t)) as (d & f & Ha).
    destruct (connection_gives_up tr i t d f Ha) as (events & Hc & Hcount & Hquiet).
    exists events, t, d, f. rewrite Hc, Hcount, Hquiet.
    replace (i + 1)%nat with (S i) by lia.
    replace (i + 0)%nat with i by lia. repeat split; try reflexivity; try exact Ha; lia.
  - destruct (attempt_fails tr i t (Hfails i t)) as (d0 & f0 & Ha).
    pose proof (attempt_bounded tr i t) as Hd0. rewrite Ha in Hd0. simpl in Hd0.
    destruct (IH (S i) (t + d0 + 3000)) as (events & tLast & d & f & Hc & Hlast & Hn & Hq & Hlo & Hhi).
    exists (ConnectCalled t :: LogWarn (t + d0) f0 :: events), tLast, d, f.
    cbn [connection]. rewrite Ha, Hc.
    replace (S i + S k)%nat with (i + S (S k))%nat by lia.
    replace (S i + k)%nat with (i + S k)%nat in Hlast by lia.
    split; [reflexivity|]. split; [exact Hlast|].
    split; [simpl; now rewrite Hn|]. split; [simpl; exact Hq|].
    split; lia.
Qed.

Lemma buildPipeline_first (b : Binding) (arg1 arg2 : value) (st : ProxyState) :
  firstCall st = true ->
  source (fst (buildPipeline b arg1 arg2 st)) = FirstConnection.
Proof. unfold buildPipeline, connect. now intros ->. Qed.

Lemma buildPipeline_later (b : Binding) (arg1 arg2 : value) (st : ProxyState) :
  firstCall st = false ->
  source (fst (buildPipeline b arg1 arg2 st)) = StatusFeed /\
  snd (buildPipeline b arg1 arg2 st) = st.
Proof. unfold buildPipeline, connect. now intros ->. Qed.

(** Once a bound function has been called, [firstCall] is false for good. *)
Lemma buildPipeline_clears (b : Binding) (arg1 arg2 : value) (st : ProxyState) :
  firstCall (snd (buildPipeline b arg1 arg2 st)) = false.
Proof.
  unfold buildPipeline, connect. destruct (firstCall st) eqn:H; simpl; congruence.
Qed.

Lemma pipelines_later (calls : list CallRequest) (st : ProxyState) :
  firstCall st = false ->
  Forall (fun ob => source ob = StatusFeed) (pipelines calls st).
Proof.
  revert st. induction calls as [|c rest IH]; intros st Hst; simpl; [constructor|].
  destruct (buildPipeline_later (callee c) (firstArgument c) (secondArgument c) st Hst)
    as [Hsrc Hsame].
  destruct (buildPipeline _ _ _ st) as [ob st']. simpl in *. subst st'.
  constructor; [exact Hsrc|apply IH, Hst].
Qed.

Lemma pipelines_after_first (calls : list CallRequest) (st : ProxyState) (k : nat)
    (ob : Pipeline) :
  nth_error (pipelines calls st) (S k) = Some ob -> source ob = StatusFeed.
Proof.
  destruct calls as [|c rest]; simpl; [discriminate|].
  pose proof (buildPipeline_clears (callee c) (firstArgument c) (secondArgument c) st) as Hc.
  destruct (buildPipeline _ _ _ st) as [ob0 st']. simpl in *.
  intros Hnth. pose proof (pipelines_later rest st' Hc) as Hall.
  rewrite List.Forall_forall in Hall. apply Hall. eapply nth_error_In, Hnth.
Qed.

(** Whatever the connection phase does, only the subscription to the
    request stream dispatches, and it does so with the captured pattern and
    the payload of the call. *)
Lemma connection_no_dispatch (tr : Transport) (retries n : nat) (t : N) :
  List.filter isDispatched (fst (fst (connection tr retries n t))) = [].
Proof.
  revert n t. induction retries as [|k IH]; intros n t; cbn [connection].
  - destruct (attempt tr n t) as [d [v|f]]; [reflexivity|].
    destruct (readMessage f); reflexivity.
  - destruct (attempt tr n t) as [d [v|f]]; [reflexivity|].
    specialize (IH (S n) (t + d + 3000)).
    destruct (connection tr k (S n) (t + d + 3000)) as [[events n'] phase].
    simpl in *. exact IH.
Qed.

Lemma establish_no_dispatch (tr : Transport) (service : string) (src : ConnectionSource)
    (n : nat) (t : N) :
  List.filter isDispatched (fst (fst (establish tr service src n t))) = [].
Proof.
  destruct src; [apply connection_no_dispatch|reflexivity].
Qed.

Lemma subscribe_dispatch (tr : Transport) (service : string) (ob : Pipeline)
    (n : nat) (t at_ : N) (m : DispatchMode) (pattern payload : value) :
  In (Dispatched at_ m pattern payload) (fst (fst (subscribe tr service ob n t))) ->
  m = mode ob /\ pattern = sentPattern ob /\ payload = sentPayload ob.
Proof.
  unfold subscribe. pose proof (establish_no_dispatch tr service (source ob) n t) as Hnone.
  destruct (establish tr service (source ob) n t) as [[events n'] phase]. simpl in Hnone.
  assert (Hnot : ~ In (Dispatched at_ m pattern payload) events).
  { intros Hin.
    assert (Hf : In (Dispatched at_ m pattern payload) (List.filter isDispatched events)).
    { apply filter_In. split; [exact Hin|reflexivity]. }
    rewrite Hnone in Hf. destruct Hf. }
  destruct phase as [t1 v|t1 f|]; simpl; try contradiction.
  destruct (ms ob); simpl; try contradiction.
  intros Hin. apply in_app_or in Hin as [Hin|[Heq|[]]]; [contradiction|].
  injection Heq as <- <- <- <-. auto.
Qed.

Lemma timeoutEach_within (due : Z) (s : Stream) :
  completesWithin (Z.to_N due) s -> timeoutEach due (emissions s) (ending s) = s.
Proof.
  destruct s as [emits e]. unfold completesWithin, timeoutEach. simpl.
  intros [Hall (gap & -> & Hgap)].
  assert (Hpos : (0 <? due)%Z = true) by (apply Z.ltb_lt; lia). rewrite Hpos.
  induction emits as [|[g v] rest IH]; simpl.
  - replace (gap <=? Z.to_N due) with true by (symmetry; apply N.leb_le; lia). reflexivity.
  - inversion Hall as [|? ? Hg Hrest]; subst. simpl in Hg.
    replace (g <=? Z.to_N due) with true by (symmetry; apply N.leb_le; lia).
    rewrite (IH Hrest). reflexivity.
Qed.

Lemma timeline_emissions_last (t : N) (emits : list (N * value)) (e : Ending)
    (g : N) (v : value) :
  last emits = Some (g, v) ->
  exists t', last (emissions (timeline t emits e)) = Some (t', v).
Proof.
  revert t. induction emits as [|[g0 v0] rest IH]; intros t Hlast; [discriminate|].
  destruct rest as [|[g1 v1] rest'].
  - injection Hlast as <- <-. simpl. eexists. reflexivity.
  - change (last ((g0, v0) :: (g1, v1) :: rest')) with (last ((g1, v1) :: rest')) in Hlast.
    destruct (IH (t + g0) Hlast) as [t' Ht']. exists t'. exact Ht'.
Qed.

Lemma timeline_values (t : N) (emits : list (N * value)) (e : Ending) :
  map snd (emissions (timeline t emits e)) = map snd emits.
Proof.
  revert t. induction emits as [|[g v] rest IH]; intros t; simpl; [reflexivity|].
  now rewrite IH.
Qed.

Lemma timeline_completes (t : N) (emits : list (N * value)) (gap : N) :
  exists tEnd, ending (timeline t emits (Completes gap)) = Completes tEnd.
Proof.
  revert t. induction emits as [|[g0 v0] rest IH]; intros t; simpl.
  - eexists. reflexivity.
  - apply IH.
Qed.

Lemma timeline_last (t : N) (emits : list (N * value)) (gap g : N) (v : value) :
  last emits = Some (g, v) ->
  exists tEnd, lastValueFrom (timeline t emits (Completes gap)) = Fulfilled tEnd v.
Proof.
  intros Hlast. unfold lastValueFrom.
  destruct (timeline_completes t emits gap) as [tEnd ->].
  destruct (timeline_emissions_last t emits (Completes gap) g v Hlast) as [t' ->].
  now exists tEnd.
Qed.

End RuntimeFacts.

Section RuntimeClaims.
Import Runtime Examples.
#[local] Open Scope N_scope.

(** The trap reads the whole entry of the service: which method is asked
    for has no part in the pattern and the flag it binds. *)
Lemma get_binding_ignores_method (patternMap : value) (service : string) (st : ProxyState)
    (m1 m2 : string) (b1 b2 : Binding) (st1 st2 : ProxyState) :
  target st !! m1 = None -> target st !! m2 = None ->
  get patternMap service st m1 = Ok (b1, st1) ->
  get patternMap service st m2 = Ok (b2, st2) ->
  boundPattern b1 = boundPattern b2 /\ boundHasPayload b1 = boundHasPayload b2.
Proof.
  unfold get. intros -> ->.
  destruct (get_prop patternMap service) as [entry|e]; [|discriminate]. simpl.
  destruct (destructurePair entry) as [pair|e]; [|discriminate]. simpl.
  intros H1 H2. injection H1 as <- _. injection H2 as <- _. auto.
Qed.

(** With the map the generator writes, where the entry of a service is an
    object keyed by method name, the trap throws for every method that is
    not bound yet. *)
Lemma get_throws_on_generated_map (patternMap : value) (service : string)
    (byMethod : list (string * value)) (st : ProxyState) (methodName : string) :
  get_prop patternMap service = Ok (JObj byMethod) ->
  target st !! methodName = None ->
  get patternMap service st methodName = Throw "TypeError: object is not iterable".
Proof. unfold get. now intros -> ->. Qed.

(** C1. On the generated map of the service users with the one method
    getUser, the entry recorded under the service and the method is the
    pattern users.get with the flag true, but the first access to getUser
    on the proxy destructures the entry of the service itself and throws:
    no function is bound. *)
Theorem get_does_not_index_by_method :
  recordedBinding generatedMap "users" "getUser" = Ok (JStr "users.get", JBool true) /\
  get generatedMap "users" initialProxy "getUser" = Throw "TypeError: object is not iterable".
Proof.
  split; [reflexivity|].
  apply (get_throws_on_generated_map generatedMap "users"
           [("getUser", JArr [JStr "users.get"; JBool true])]); reflexivity.
Qed.

Lemma makeBinding_observable (pattern hasPayload : value) (methodName : string) :
  isObservable (makeBinding pattern hasPayload methodName) =
  startsWith methodName "emit" || endsWith methodName "$".
Proof. reflexivity. Qed.




End RuntimeClaims.

Section ConnectionClaims.
Import Runtime Examples.
#[local] Open Scope N_scope.

(** C3, as amended. On the first call of a proxy whose transport fails
    every connect, the stream of the call invokes connect six times: once
    and then for each of the 5 retries, each attempt ending within 2000 ms
    and each retry starting 3000 ms after the failure before it. It then
    errors, without dispatching anything, with the failure of the last
    attempt: the reason of the rejection when the transport rejected in
    time with a reason whose message can be read, the timeout error when
    the 2000 ms ran out; a promise-returning method rejects with it. *)
Theorem first_call_gives_up_after_five_retries
    (tr : Transport) (service : string) (b : Binding) (arg1 arg2 : value)
    (st : ProxyState) (n : nat) (t : N) :
  firstCall st = true ->
  alwaysFails tr ->
  let ob := fst (buildPipeline b arg1 arg2 st) in
  exists events tLast d f,
    subscribe tr service ob n t =
      (events, (n + 6)%nat, {| emissions := []; ending := Errors (tLast + d) f |}) /\
    length (List.filter isConnectCalled events) = 6%nat /\
    List.filter isDispatched events = [] /\
    (forall d' r, connectOutcome tr (n + 5)%nat tLast = Rejects d' r -> d' < 2000 ->
                  messageReadable r -> d = d' /\ f = Reason r) /\
    (match connectOutcome tr (n + 5)%nat tLast with
     | Resolves d' _ | Rejects d' _ => 2000 < d'
     | NeverSettles => True
     end -> d = 2000 /\ f = TimeoutError) /\
    t + 15000 <= tLast /\ tLast <= t + 25000 /\ d <= 2000 /\
    (isObservable b = false ->
     call tr service b arg1 arg2 st n t =
       (ReturnsPromise (Rejected (tLast + d) f), events,
        snd (buildPipeline b arg1 arg2 st), (n + 6)%nat)).
Proof.
  intros Hfirst Hfails ob.
  destruct (connection_fails tr Hfails 5%nat n t)
    as (events & tLast & d & f0 & Hc & Hlast & Hcount & Hquiet & Hlo & Hhi).
  exists events, tLast, d, (surfaced f0).
  assert (Hsub : subscribe tr service ob n t =
            (events, (n + 6)%nat,
             {| emissions := []; ending := Errors (tLast + d) (surfaced f0) |})).
  { unfold subscribe, establish. subst ob. rewrite (buildPipeline_first _ _ _ _ Hfirst).
    rewrite Hc. reflexivity. }
  split; [exact Hsub|]. split; [exact Hcount|]. split; [exact Hquiet|]. split.
  { intros d' r Hout Hd' Hmessage.
    rewrite (attempt_rejected _ _ _ _ _ Hout Hd') in Hlast. injection Hlast as <- <-.
    split; [reflexivity|]. exact (proj1 (proj2 (surfaced_cases (Reason r))) r Hmessage). }
  split.
  { intros Hlate. rewrite (attempt_timed_out _ _ _ Hlate) in Hlast.
    injection Hlast as <- <-. split; reflexivity. }
  pose proof (attempt_bounded tr (n + 5)%nat tLast) as Hd. rewrite Hlast in Hd. simpl in Hd.
  split; [lia|]. split; [lia|]. split; [exact Hd|].
  intros Hpromise. unfold call. subst ob.
  destruct (buildPipeline b arg1 arg2 st) as [ob st'] eqn:Hbuild. cbn [fst snd] in *.
  rewrite Hpromise, Hsub. reflexivity.
Qed.

Lemma refusing_always_fails : alwaysFails refusing.
Proof. intros i t. exact I. Qed.

Lemma first_call_gives_up_after_five_retries_witness :
  exists events tEnd,
    call refusing "users" getUser (JStr "u1") JUndefined initialProxy 0 1000 =
      (ReturnsPromise (Rejected tEnd (Reason (JStr "ECONNREFUSED"))), events,
       connectedProxy, 6%nat) /\
    length (List.filter isConnectCalled events) = 6%nat.
Proof.
  destruct (first_call_gives_up_after_five_retries refusing "users" getUser (JStr "u1")
              JUndefined initialProxy 0 1000 eq_refl refusing_always_fails)
    as (events & tLast & d & f & _ & Hcount & _ & Hreason & _ & _ & _ & _ & Hcall).
  exists events, (tLast + d).
  destruct (Hreason 100 (JStr "ECONNREFUSED") eq_refl eq_refl) as [_ Hf].
  { split; discriminate. }
  rewrite Hf in Hcall.
  split; [exact (Hcall eq_refl)|exact Hcount].
Defined.

(** The slip of line 89 set apart: when the last rejection comes without
    an error, the read of its message throws in the callback of the last
    [tap], and the call fails with that exception in place of the
    reason. *)
Lemma final_log_needs_a_message (tr : Transport) (i : nat) (t d : N) (r : value) :
  connectOutcome tr i t = Rejects d r -> d < 2000 -> r = JUndefined \/ r = JNull ->
  exists message,
    connection tr 0 i t =
      ([ConnectCalled t; LogWarn (t + d) (Reason r)], S i, GaveUp (t + d) (TypeError message)).
Proof.
  intros Hout Hd Hr. cbn [connection]. rewrite (attempt_rejected _ _ _ _ _ Hout Hd).
  destruct Hr as [-> | ->]; eexists; reflexivity.
Qed.

(** C3, the statement as written fails: with the transport that refuses
    every connection, the first call made at 1000 invokes connect a sixth
    time, at 16500, before it rejects at 16600. *)
Lemma sixth_connect_attempt_occurs :
  List.filter isConnectCalled
    (snd (fst (fst (call refusing "users" getUser (JStr "u1") JUndefined initialProxy 0 1000))))
    = [ConnectCalled 1000; ConnectCalled 4100; ConnectCalled 7200;
       ConnectCalled 10300; ConnectCalled 13400; ConnectCalled 16500] /\
  fst (fst (fst (call refusing "users" getUser (JStr "u1") JUndefined initialProxy 0 1000)))
    = ReturnsPromise (Rejected 16600 (Reason (JStr "ECONNREFUSED"))).
Proof. split; reflexivity. Qed.

(** C7. When the captured flag is true the first argument is the payload
    and the second gives the options; when it is false the payload is the
    empty object and the first argument gives the options. Whatever a
    subscription to the stream of the call dispatches to the transport
    carries the captured pattern and that payload. *)
Theorem payload_and_options_by_flag
    (b : Binding) (arg1 arg2 : value) (st : ProxyState) :
  let ob := fst (buildPipeline b arg1 arg2 st) in
  (boundHasPayload b = JBool true ->
   sentPayload ob = arg1 /\ ms ob = timeoutOption arg2) /\
  (boundHasPayload b = JBool false ->
   sentPayload ob = JObj [] /\ ms ob = timeoutOption arg1) /\
  (forall tr service n t at_ m pattern payload,
      In (Dispatched at_ m pattern payload) (fst (fst (subscribe tr service ob n t))) ->
      pattern = boundPattern b /\ payload = sentPayload ob) /\
  (forall tr service n t events n' t1 v0 due,
      establish tr service (source ob) n t = (events, n', Established t1 v0) ->
      ms ob = JNum due ->
      In (Dispatched t1 (mode ob) (boundPattern b) (sentPayload ob))
         (fst (fst (subscribe tr service ob n t)))).
Proof.
  intros ob.
  assert (Hob : sentPattern ob = boundPattern b /\
                sentPayload ob = (if truthy (boundHasPayload b) then arg1 else JObj []) /\
                ms ob = timeoutOption (if truthy (boundHasPayload b) then arg2 else arg1)).
  { subst ob. unfold buildPipeline. destruct (connect st) as [src st']. auto. }
  destruct Hob as (Hpattern & Hpayload & Hms).
  split; [|split; [|split]].
  - intros Hflag. rewrite Hflag in Hpayload, Hms. auto.
  - intros Hflag. rewrite Hflag in Hpayload, Hms. auto.
  - intros tr service n t at_ m pattern payload Hin.
    destruct (subscribe_dispatch _ _ _ _ _ _ _ _ _ Hin) as (_ & -> & ->). auto.
  - intros tr service n t events n' t1 v0 due Hest Hdue.
    unfold subscribe. rewrite Hest, Hdue, Hpattern. cbn [fst].
    apply in_or_app. right. now left.
Qed.

Lemma payload_and_options_by_flag_witness :
  sentPayload (fst (buildPipeline getUser (JStr "u1") (JObj [("timeout", JNum 100%Z)])
                      initialProxy)) = JStr "u1" /\
  ms (fst (buildPipeline getUser (JStr "u1") (JObj [("timeout", JNum 100%Z)])
             initialProxy)) = JNum 100%Z /\
  sentPayload (fst (buildPipeline ping (JObj [("timeout", JNum 100%Z)]) JUndefined
                      initialProxy)) = JObj [] /\
  ms (fst (buildPipeline ping (JObj [("timeout", JNum 100%Z)]) JUndefined
             initialProxy)) = JNum 100%Z /\
  In (Dispatched 1100 Send (JStr "users.ping") (JObj []))
     (fst (fst (subscribe twoValues "users"
                  (fst (buildPipeline ping (JObj [("timeout", JNum 100%Z)]) JUndefined
                          initialProxy)) 0 1000))).
Proof.
  destruct (payload_and_options_by_flag getUser (JStr "u1") (JObj [("timeout", JNum 100%Z)])
              initialProxy) as (Htrue & _ & _ & _).
  destruct (payload_and_options_by_flag ping (JObj [("timeout", JNum 100%Z)]) JUndefined
              initialProxy) as (_ & Hfalse & _ & Hsent).
  destruct (Htrue eq_refl) as [Hp1 Hm1]. destruct (Hfalse eq_refl) as [Hp2 Hm2].
  split; [exact Hp1|]. split; [exact Hm1|]. split; [exact Hp2|]. split; [exact Hm2|].
  exact (Hsent twoValues "users" 0%nat 1000 [ConnectCalled 1000; LogDebug 1100] 1%nat 1100
               JUndefined 100%Z eq_refl eq_refl).
Defined.

Lemma isConnected_false (s : value) : s <> JStr "connected" -> isConnected s = false.
Proof.
  destruct s as [| | | |name| |]; try reflexivity. simpl.
  intros Hneq. destruct (String.eqb_spec name "connected") as [->|_]; congruence.
Qed.

(** C8. The stream of every call after the first one on a proxy comes from
    the status feed: a subscription to it never invokes connect, starts by
    subscribing to the feed, and, when the first status it observes is not
    connected, fails with the not-connected error of the service at that
    instant without dispatching anything; when the status is connected the
    request is dispatched at that instant. *)
Theorem later_calls_observe_status
    (calls : list CallRequest) (st : ProxyState) (k : nat) (ob : Pipeline) :
  nth_error (pipelines calls st) (S k) = Some ob ->
  source ob = StatusFeed /\
  forall (tr : Transport) (service : string) (n : nat) (t : N),
    snd (fst (subscribe tr service ob n t)) = n /\
    List.filter isConnectCalled (fst (fst (subscribe tr service ob n t))) = [] /\
    head (fst (fst (subscribe tr service ob n t))) = Some (StatusSubscribed t) /\
    (forall gap s rest e,
        statusFeed tr t = {| emissions := (gap, s) :: rest; ending := e |} ->
        s <> JStr "connected" ->
        subscribe tr service ob n t =
          ([StatusSubscribed t], n,
           {| emissions := [];
              ending := Errors (t + gap) (NotConnected service) |})) /\
    (forall gap rest e due,
        statusFeed tr t = {| emissions := (gap, JStr "connected") :: rest; ending := e |} ->
        ms ob = JNum due ->
        fst (fst (subscribe tr service ob n t)) =
          [StatusSubscribed t; Dispatched (t + gap) (mode ob) (sentPattern ob) (sentPayload ob)]).
Proof.
  intros Hnth. pose proof (pipelines_after_first calls st k ob Hnth) as Hsrc.
  split; [exact Hsrc|]. intros tr service n t.
  unfold subscribe, establish. rewrite Hsrc.
  assert (Hshape :
    forall phase,
      let r := match phase with
               | Established t1 _ =>
                   match ms ob with
                   | JNum due =>
                       let inner := respond tr (mode ob) (sentPattern ob) (sentPayload ob) t1 in
                       let bounded := timeoutEach due (emissions inner) (ending inner) in
                       (([StatusSubscribed t] ++
                         [Dispatched t1 (mode ob) (sentPattern ob) (sentPayload ob)])%list, n,
                        timeline t1 (emissions bounded) (ending bounded))
                   | _ => ([StatusSubscribed t], n,
                           {| emissions := [];
                              ending := Errors t1 (TypeError "No timeout provided.") |})
                   end
               | GaveUp t1 f => ([StatusSubscribed t], n, {| emissions := []; ending := Errors t1 f |})
               | Stuck => ([StatusSubscribed t], n, {| emissions := []; ending := Pending |})
               end in
      snd (fst r) = n /\ List.filter isConnectCalled (fst (fst r)) = [] /\
      head (fst (fst r)) = Some (StatusSubscribed t)).
  { intros [t1 v|t1 f|]; simpl; [|auto|auto]. destruct (ms ob); simpl; auto. }
  destruct (Hshape (awaitConnected tr service t)) as (Hn & Hquiet & Hhead).
  split; [exact Hn|]. split; [exact Hquiet|]. split; [exact Hhead|]. split.
  - intros gap s rest e Hfeed Hs. unfold awaitConnected. rewrite Hfeed.
    rewrite (isConnected_false s Hs). reflexivity.
  - intros gap rest e due Hfeed Hdue. unfold awaitConnected. rewrite Hfeed.
    simpl. rewrite Hdue. reflexivity.
Qed.

Lemma later_calls_observe_status_witness :
  subscribe refusing "users"
    (fst (buildPipeline ping JUndefined JUndefined connectedProxy)) 1 20000 =
    ([StatusSubscribed 20000], 1%nat,
     {| emissions := []; ending := Errors 20000 (NotConnected "users") |}).
Proof.
  destruct (later_calls_observe_status
              [{| callee := getUser; firstArgument := JStr "u1"; secondArgument := JUndefined |};
               {| callee := ping; firstArgument := JUndefined; secondArgument := JUndefined |}]
              initialProxy 0
              (fst (buildPipeline ping JUndefined JUndefined connectedProxy)) eq_refl)
    as [_ Hlater].
  destruct (Hlater refusing "users" 1%nat 20000) as (_ & _ & _ & Hfails & _).
  exact (Hfails 0 (JStr "disconnected") [] Pending eq_refl ltac:(discriminate)).
Defined.

End ConnectionClaims.

(** ** Duplicates and aliases *)

Section DuplicateFacts.
Import Generator Examples.

(** Two elements of one key, wherever they stand, end in one group of
    duplicates; its members all have that key. *)
Lemma duplicateGroups_pair {A} (key : A -> string) (l1 l2 l3 : list A) (a b : A) :
  key a = key b ->
  exists group,
    In group (duplicateGroups key (l1 ++ a :: l2 ++ b :: l3)) /\
    In a group /\ In b group /\ forall z, In z group -> key z = key a.
Proof.
  intros Hkey. set (l := (l1 ++ a :: l2 ++ b :: l3)%list).
  destruct (groupBy_spec key l) as (_ & _ & Hall).
  assert (Ha : In a l) by (apply in_or_app; right; now left).
  assert (Hb : In b l).
  { apply in_or_app. right. right. apply in_or_app. right. now left. }
  exists (List.filter (fun y => String.eqb (key y) (key a)) l).
  split; [|split; [|split]].
  - apply duplicateGroups_In. exists (key a). split; [apply Hall, Ha|].
    unfold l. rewrite List.filter_app. simpl. rewrite String.eqb_refl. simpl.
    rewrite List.filter_app. simpl. rewrite <- Hkey, String.eqb_refl.
    rewrite !length_app. simpl. rewrite length_app. simpl. lia.
  - apply List.filter_In. split; [exact Ha|apply String.eqb_refl].
  - apply List.filter_In. split; [exact Hb|]. rewrite Hkey. apply String.eqb_refl.
  - intros z Hz. apply List.filter_In in Hz as [_ Hz]. now apply String.eqb_eq in Hz.
Qed.

(** X1. The duplicate check of a service prints nothing exactly when the
    method names of its records are distinct. Two records of one name,
    wherever they stand, are cited together in one diagnostic, and a module
    whose scan returns such records has the diagnostic printed and the flag
    raised. *)
Theorem duplicate_methods_reported (service : string) (methods : list MethodInfo) :
  (duplicateMethodDiagnostics service methods = [] <->
   List.NoDup (map methodName methods)) /\
  (forall before a between b after,
      methods = (before ++ a :: between ++ b :: after)%list ->
      methodName a = methodName b ->
      exists locations,
        In (DuplicateMethods service locations) (duplicateMethodDiagnostics service methods) /\
        In (locationOf a) locations /\ In (locationOf b) locations /\
        forall loc, In loc locations -> fst (fst loc) = methodName a) /\
  (forall (m : ServiceModule) (s s' : GenState),
      scanModule m s = (Ok (Some methods), s') ->
      forall d, In d (duplicateMethodDiagnostics (serviceNameOf m) methods) ->
                In d (printed s') /\ errorFlag s' = true).
Proof.
  split; [|split].
  - unfold duplicateMethodDiagnostics. rewrite <- duplicateGroups_nil_iff.
    destruct (duplicateGroups methodName methods); simpl; split; congruence.
  - intros before a between b after -> Hname.
    destruct (duplicateGroups_pair methodName before between after a b Hname)
      as (group & Hgroup & Ha & Hb & Hsame).
    exists (map locationOf group). split; [|split; [|split]].
    + unfold duplicateMethodDiagnostics. apply in_map_iff. exists group. auto.
    + now apply in_map.
    + now apply in_map.
    + intros loc Hloc. apply in_map_iff in Hloc as (z & <- & Hz). simpl. now apply Hsame.
  - intros m s s' Hscan d Hd. unfold scanModule in Hscan.
    destruct (scanSites _ _ _ s) as [[infos|e] s0]; [|discriminate].
    destruct infos as [|info infos]; [discriminate|].
    injection Hscan as <- <-. split.
    + rewrite reportAll_printed. apply in_or_app. now right.
    + rewrite reportAll_flag. destruct (duplicateMethodDiagnostics _ _); [destruct Hd|reflexivity].
Qed.

Lemma duplicate_methods_reported_witness :
  exists locations,
    In (DuplicateMethods "Users" locations)
       (printed (snd (scanModule crowdedModule initialState))) /\
    In ("findOrder", "/repo/apps/users/src/users.controller.ts", "12:3") locations /\
    In ("findOrder", "/repo/apps/users/src/admin/users.controller.ts", "30:3") locations.
Proof.
  destruct (scanModule crowdedModule initialState) as [r s'] eqn:Hscan.
  pose proof Hscan as Hconcrete. vm_compute in Hconcrete.
  destruct r as [[methods|]|e]; try discriminate.
  injection Hconcrete as Hmethods _. subst methods.
  match type of Hscan with
  | _ = (Ok (Some ?records), _) =>
      destruct (duplicate_methods_reported "Users" records) as (_ & Hpair & Hprinted)
  end.
  edestruct (Hpair [_] _ [] _ [] eq_refl eq_refl) as (locations & Hin & Ha & Hb & _).
  exists locations. split; [|split; [exact Ha|exact Hb]].
  exact (proj1 (Hprinted crowdedModule initialState s' Hscan _ Hin)).
Defined.

End DuplicateFacts.

Section AliasFacts.
Import Generator Examples.

Lemma two_keys_length {A B} (l : list (A * B)) (p q : A * B) :
  In p l -> In q l -> fst p <> fst q -> (2 <= length l)%nat.
Proof.
  destruct l as [|x [|y l]]; simpl; intros Hp Hq Hne; try lia.
  destruct Hp as [<-|[]], Hq as [<-|[]]. congruence.
Qed.

Lemma usedByTwoFiles_iff (methods : list MethodInfo) (name : string) :
  usedByTwoFiles methods name = true <->
  exists a b, In a methods /\ In b methods /\
              className a = name /\ className b = name /\
              controllerPath a <> controllerPath b.
Proof.
  unfold usedByTwoFiles.
  set (paths := map controllerPath
                  (List.filter (fun info => String.eqb (className info) name) methods)).
  assert (Hpaths : forall p, In p paths <->
            exists a, In a methods /\ className a = name /\ controllerPath a = p).
  { intros p. unfold paths. rewrite in_map_iff. split.
    - intros (a & <- & Ha). apply List.filter_In in Ha as [Ha Hn]. apply String.eqb_eq in Hn.
      now exists a.
    - intros (a & Ha & Hn & <-). exists a. split; [reflexivity|].
      apply List.filter_In. split; [exact Ha|]. now apply String.eqb_eq. }
  destruct (groupBy_spec id paths) as (Hnd & Hgroups & Hall).
  rewrite Nat.ltb_lt. split.
  - intros Hlen.
    destruct (groupBy id paths) as [|[k1 xs1] [|[k2 xs2] rest]] eqn:Hg; simpl in Hlen; try lia.
    assert (Hk : forall k xs, In (k, xs) ((k1, xs1) :: (k2, xs2) :: rest) -> In k paths).
    { intros k xs Hin. destruct (Hgroups k xs Hin) as [-> Hne].
      destruct (List.filter (fun y => String.eqb (id y) k) paths) as [|y ys] eqn:Hf;
        [contradiction|].
      assert (Hy : In y (List.filter (fun y => String.eqb (id y) k) paths))
        by (rewrite Hf; now left).
      apply List.filter_In in Hy as [Hy Hyk]. apply String.eqb_eq in Hyk.
      unfold id in Hyk. now subst. }
    destruct (proj1 (Hpaths k1) (Hk k1 xs1 (or_introl eq_refl))) as (a & Ha & Hna & Hpa).
    destruct (proj1 (Hpaths k2) (Hk k2 xs2 (or_intror (or_introl eq_refl))))
      as (b & Hb & Hnb & Hpb).
    exists a, b. split; [exact Ha|]. split; [exact Hb|]. split; [exact Hna|].
    split; [exact Hnb|]. intros Heq. rewrite Hpa, Hpb in Heq.
    simpl in Hnd. inversion Hnd as [|? ? Hfresh _]. apply Hfresh. left. now symmetry.
  - intros (a & b & Ha & Hb & Hna & Hnb & Hne).
    eapply two_keys_length.
    + apply (Hall (controllerPath a)), Hpaths. now exists a.
    + apply (Hall (controllerPath b)), Hpaths. now exists b.
    + exact Hne.
Qed.

(** X2. The aliasing step keeps every record in its place and changes
    nothing but the class name: a record whose class name is also used by a
    record of another controller file gets the service name put in front of
    it, any other record is left as it is. *)
Theorem class_alias_only_on_collision
    (service : string) (methods : list MethodInfo) (i : nat) (info : MethodInfo) :
  nth_error methods i = Some info ->
  exists info',
    nth_error (aliasDuplicateClassNames service methods) i = Some info' /\
    (controllerPath info', methodName info', pattern info', paramIndex info',
     serviceName info', isEventHandler info', eventName info', position info') =
    (controllerPath info, methodName info, pattern info, paramIndex info,
     serviceName info, isEventHandler info, eventName info, position info) /\
    ((exists other, In other methods /\ className other = className info /\
                    controllerPath other <> controllerPath info) ->
     className info' = service +:+ className info) /\
    ((forall other, In other methods -> className other = className info ->
                    controllerPath other = controllerPath info) ->
     info' = info).
Proof.
  intros Hnth. unfold aliasDuplicateClassNames. rewrite nth_error_map, Hnth. simpl.
  eexists. split; [reflexivity|].
  destruct (usedByTwoFiles methods (className info)) eqn:Hused.
  - split; [reflexivity|]. split; [reflexivity|].
    intros Hsame. exfalso. apply usedByTwoFiles_iff in Hused
      as (a & b & Ha & Hb & Hna & Hnb & Hne).
    apply Hne. rewrite (Hsame a Ha Hna), (Hsame b Hb Hnb). reflexivity.
  - split; [reflexivity|]. split; [|reflexivity].
    intros (other & Hother & Hname & Hpath). exfalso.
    assert (Htrue : usedByTwoFiles methods (className info) = true).
    { apply usedByTwoFiles_iff. exists other, info.
      repeat split; try assumption. eapply nth_error_In, Hnth. }
    congruence.
Qed.

Lemma class_alias_only_on_collision_witness :
  map className
    (aliasDuplicateClassNames "Users"
       (flat_map (siteRecords "Users" "users") (handlerSites (controllers crowdedModule))))
  = ["UsersUsersController"; "UsersUsersController"; "UsersUsersController"] /\
  map className
    (aliasDuplicateClassNames "Users"
       (flat_map (siteRecords "Users" "users") (handlerSites (controllers usersModule))))
  = ["UsersController"; "UsersController"].
Proof.
  split.
  - destruct (flat_map (siteRecords "Users" "users") (handlerSites (controllers crowdedModule)))
      as [|r1 [|r2 [|r3 [|r4 rest]]]] eqn:Hrecords; try discriminate.
    pose proof Hrecords as Hconcrete. vm_compute in Hconcrete.
    injection Hconcrete as H1 H2 H3.
    destruct (class_alias_only_on_collision "Users" [r1; r2; r3] 0 r1 eq_refl)
      as (a1 & Hn1 & _ & Hc1 & _).
    destruct (class_alias_only_on_collision "Users" [r1; r2; r3] 1 r2 eq_refl)
      as (a2 & Hn2 & _ & Hc2 & _).
    destruct (class_alias_only_on_collision "Users" [r1; r2; r3] 2 r3 eq_refl)
      as (a3 & Hn3 & _ & Hc3 & _).
    unfold aliasDuplicateClassNames in *. cbn [map nth_error] in *.
    injection Hn1 as <-. injection Hn2 as <-. injection Hn3 as <-.
    assert (H13 : controllerPath r3 <> controllerPath r1) by (subst; discriminate).
    assert (H23 : controllerPath r3 <> controllerPath r2) by (subst; discriminate).
    assert (H31 : controllerPath r1 <> controllerPath r3) by (subst; discriminate).
    assert (N13 : className r3 = className r1) by (subst; reflexivity).
    assert (N23 : className r3 = className r2) by (subst; reflexivity).
    assert (N31 : className r1 = className r3) by (subst; reflexivity).
    rewrite (Hc1 (ex_intro _ r3 (conj (or_intror (or_intror (or_introl eq_refl)))
                                      (conj N13 H13)))).
    rewrite (Hc2 (ex_intro _ r3 (conj (or_intror (or_intror (or_introl eq_refl)))
                                      (conj N23 H23)))).
    rewrite (Hc3 (ex_intro _ r1 (conj (or_introl eq_refl) (conj N31 H31)))).
    subst. reflexivity.
  - reflexivity.
Defined.

End AliasFacts.

(** ** More on the resolution of routing keys *)

Section ResolverFacts.
Import Generator Examples.

Lemma set_field_perm {V} (k : string) (v : V) (fields : list (string * V)) :
  ~ In k (map fst fields) ->
  Permutation.Permutation (set_field k v fields) ((k, v) :: fields).
Proof.
  intros Hnot. unfold set_field, upsert.
  rewrite (proj2 (hasOwn_false k fields) Hnot). apply insertNew_perm.
Qed.

(** The properties set one by one: the object ends with all of them, each
    under its name. *)
Lemma pullObject_perm (props : list (string * option Ty)) (fields acc : list (string * value)) :
  resolvesTo props fields ->
  List.NoDup (map fst acc ++ map fst fields) ->
  exists object,
    (fix pull (props : list (string * option Ty)) (acc : list (string * value))
       : result (list (string * value)) :=
       match props with
       | [] => Ok acc
       | (name, None) :: _ => Throw "TypeError: getType of undefined"
       | (name, Some propType) :: rest =>
           match valueFromType propType with
           | Ok v => pull rest (set_field name v acc)
           | Throw e => Throw e
           end
       end) props acc = Ok object /\
    Permutation.Permutation object (acc ++ fields)%list /\
    (inKeyOrder (map fst acc) -> inKeyOrder (map fst object)).
Proof.
  intros Hres. revert acc. induction Hres as [|[name decl] [k v] props fields Hhead Hrest IH];
    intros acc Hnd.
  - exists acc. rewrite app_nil_r. auto.
  - simpl in Hhead. destruct Hhead as [-> (t & -> & Hv)]. rewrite Hv.
    simpl in Hnd.
    assert (Hfresh : ~ In k (map fst acc)).
    { apply NoDup_remove_2 in Hnd. intros Hin. apply Hnd. apply in_or_app. now left. }
    pose proof (set_field_perm k v acc Hfresh) as Hperm.
    destruct (IH (set_field k v acc)) as (object & Hpull & Hobject & Horder).
    + apply (Permutation.Permutation_NoDup (l := k :: (map fst acc ++ map fst fields))).
      * change (k :: (map fst acc ++ map fst fields))%list
          with (map fst ((k, v) :: acc) ++ map fst fields)%list.
        apply Permutation.Permutation_app_tail, Permutation.Permutation_map.
        now apply Permutation.Permutation_sym.
      * apply NoDup_remove in Hnd as [Hnd Hk]. now constructor.
    + exists object. split; [exact Hpull|]. split.
      * rewrite Hobject.
        rewrite (Permutation.Permutation_app_tail fields Hperm). simpl.
        apply Permutation.Permutation_middle.
      * intros Hacc. apply Horder. now apply upsert_inKeyOrder.
Qed.

(** When no name is an array index the properties stay in the order they
    were set. *)
Lemma pullObject_ok (props : list (string * option Ty)) (fields acc : list (string * value)) :
  resolvesTo props fields ->
  List.NoDup (map fst acc ++ map fst fields) ->
  Forall (fun kv => arrayIndex (fst kv) = None) fields ->
  (fix pull (props : list (string * option Ty)) (acc : list (string * value))
     : result (list (string * value)) :=
     match props with
     | [] => Ok acc
     | (name, None) :: _ => Throw "TypeError: getType of undefined"
     | (name, Some propType) :: rest =>
         match valueFromType propType with
         | Ok v => pull rest (set_field name v acc)
         | Throw e => Throw e
         end
     end) props acc = Ok (acc ++ fields)%list.
Proof.
  intros Hres. revert acc. induction Hres as [|[name decl] [k v] props fields Hhead Hrest IH];
    intros acc Hnd Hnames.
  - now rewrite app_nil_r.
  - simpl in Hhead. destruct Hhead as [-> (t & -> & Hv)]. rewrite Hv.
    inversion Hnames as [|? ? Hk Hnames']; subst. simpl in Hk.
    simpl in Hnd. rewrite set_field_fresh; [| |exact Hk].
    + rewrite IH; [|rewrite map_app; simpl; rewrite <- app_assoc; exact Hnd|exact Hnames'].
      now rewrite <- app_assoc.
    + apply NoDup_remove_2 in Hnd. intros Hin. apply Hnd. apply in_or_app. now left.
Qed.

Lemma tuple_ok (variable : bool) (ts : list Ty) (vs : list value) props :
  Forall2 (fun t v => valueFromType t = Ok v) ts vs ->
  valueFromType (TyTuple variable ts props) = Ok (JArr vs).
Proof.
  induction 1 as [|t v ts vs Hv Hrest IH]; [reflexivity|].
  simpl in *. rewrite Hv.
  destruct ((fix mapElements (ts : list Ty) : result (list value) := _) ts) as [vs'|e];
    [|discriminate].
  now injection IH as ->.
Qed.

Lemma tuple_throws (variable : bool) (ts : list Ty) props (t : Ty) (err : string) :
  In t ts -> valueFromType t = Throw err ->
  exists err', valueFromType (TyTuple variable ts props) = Throw err'.
Proof.
  intros Hin Ht. induction ts as [|t0 ts IH]; [destruct Hin|].
  simpl. destruct (valueFromType t0) as [v0|e0] eqn:H0; [|now eexists].
  destruct Hin as [->|Hin]; [congruence|].
  destruct (IH Hin) as [err' Herr]. simpl in Herr.
  destruct ((fix mapElements (ts : list Ty) : result (list value) := _) ts) as [vs'|e];
    [discriminate|now eexists].
Qed.

(** X3. The collapse of a type is compositional. A tuple whose members
    collapse gives the array of their values in order, whether or not it
    has a rest element. An object type whose properties have distinct names
    and collapse gives an object that holds exactly these values under
    these names, in the order of the keys of an object: the names that are
    array indices first; when no name is an array index they come in
    declaration order. *)
Theorem valueFromType_composes :
  (forall variable ts vs props,
      Forall2 (fun t v => valueFromType t = Ok v) ts vs ->
      valueFromType (TyTuple variable ts props) = Ok (JArr vs)) /\
  (forall props fields,
      resolvesTo props fields -> List.NoDup (map fst fields) ->
      exists object,
        valueFromType (TyObject props) = Ok (JObj object) /\
        Permutation.Permutation object fields /\
        inKeyOrder (map fst object) /\
        (Forall (fun kv => arrayIndex (fst kv) = None) fields -> object = fields)).
Proof.
  split; [exact tuple_ok|].
  intros props fields Hres Hnd.
  destruct (pullObject_perm props fields [] Hres Hnd) as (object & Hpull & Hperm & Horder).
  exists object. simpl. rewrite Hpull. split; [reflexivity|]. split; [exact Hperm|].
  split; [exact (Horder I)|].
  intros Hnames. pose proof (pullObject_ok props fields [] Hres Hnd Hnames) as Hok.
  rewrite Hpull in Hok. now injection Hok.
Qed.

(** A property whose name is an array index comes first in the object,
    wherever the type declares it. *)
Lemma index_named_property_comes_first :
  valueFromType indexedBy = Ok (JObj [("1", JStr "first"); ("cmd", JStr "orders")]).
Proof. reflexivity. Qed.

Lemma valueFromType_composes_witness :
  valueFromType orderedBy =
    Ok (JObj [("cmd", JStr "orders"); ("page", JArr [JNum 1; JNum 2])]).
Proof.
  destruct valueFromType_composes as (Htuple & Hobject).
  destruct (Hobject [("cmd", Some (TyLiteral (LString "orders")));
                     ("page", Some (TyTuple false [TyLiteral (LNumber 1); TyLiteral (LNumber 2)] []))]
                    [("cmd", JStr "orders"); ("page", JArr [JNum 1; JNum 2])])
    as (object & Hvalue & _ & _ & Horder).
  - repeat constructor; simpl; eexists; (split; [reflexivity|]).
    + reflexivity.
    + apply Htuple. repeat constructor.
  - repeat constructor; simpl; intuition discriminate.
  - rewrite <- Horder; [exact Hvalue|]. repeat constructor.
Defined.

(** X4. A type that denotes no single value cannot be collapsed, and the
    failure of one tuple member or of one property fails the whole type. A
    request handler whose routing key is no literal and has such a type is
    answered by the extraction diagnostic and no record. *)
Theorem unresolvable_type_is_rejected :
  (forall flag, exists err, valueFromType (TyOther flag) = Throw err) /\
  (forall ts props t err,
      In t ts -> valueFromType t = Throw err ->
      exists err', valueFromType (TyTuple false ts props) = Throw err') /\
  (forall props name, In (name, None) props ->
      exists err, valueFromType (TyObject props) = Throw err) /\
  (forall service kebab file classNode method d e args err,
      List.find (isDecoratorOneOf ["MessagePattern"; "EventPattern"]) (getDecorators method)
        = Some d ->
      calleeIdentifier d = Some "MessagePattern" ->
      getArguments d = e :: args ->
      startsWith (getName method) "emit" = false ->
      isLiteralNode e = false ->
      valueFromType (typeAtLocation e) = Throw err ->
      processMethod service kebab file classNode method =
        Ok (Rejected (PatternNotExtracted (getName method) (getFilePath file) (exprPos e)))).
Proof.
  split; [intros flag; now eexists|]. split; [exact (tuple_throws false)|]. split.
  - intros props name Hin. simpl.
    assert (H : forall acc, exists err,
      (fix pull (props : list (string * option Ty)) (acc : list (string * value))
         : result (list (string * value)) :=
         match props with
         | [] => Ok acc
         | (name, None) :: _ => Throw "TypeError: getType of undefined"
         | (name, Some propType) :: rest =>
             match valueFromType propType with
             | Ok v => pull rest (set_field name v acc)
             | Throw e => Throw e
             end
         end) props acc = Throw err).
    { induction props as [|[k decl] rest IH]; [destruct Hin|]. intros acc.
      destruct decl as [t|]; [|now eexists].
      destruct (valueFromType t) as [v|e0]; [|now eexists].
      destruct Hin as [Heq|Hin]; [discriminate|]. apply (IH Hin). }
    destruct (H []) as [err ->]. now eexists.
  - intros service kebab file classNode method d e args err Hfind Hcallee Hargs Hemit Hnode Hv.
    unfold processMethod. rewrite Hfind, Hcallee, Hargs, Hemit.
    change (String.eqb "MessagePattern" "EventPattern") with false. cbn [negb andb].
    unfold resolvePattern. rewrite Hnode, Hv. reflexivity.
Qed.

Lemma unresolvable_type_is_rejected_witness :
  processMethod "Users" "users" usersController (controllerClass "UsersController" [])
    unionKeyHandler =
  Ok (Rejected (PatternNotExtracted "listOrders"
                  "/repo/apps/users/src/users.controller.ts" "12:17")).
Proof.
  destruct unresolvable_type_is_rejected as (_ & Htuple & _ & Hhandler).
  destruct (Htuple [TyLiteral (LString "orders"); TyOther true] [] (TyOther true)
              "Error: Can't extract value from type")
    as [err Herr]; [right; now left|reflexivity|].
  exact (Hhandler "Users" "users" usersController (controllerClass "UsersController" [])
           unionKeyHandler _ _ [] err eq_refl eq_refl eq_refl eq_refl eq_refl Herr).
Defined.

End ResolverFacts.

(** ** The shape of event routing keys *)

Section EventKeyFacts.
Import Generator Examples.

Lemma append_nil (t : string) : ("" +:+ t) = t.
Proof. reflexivity. Qed.

Lemma append_cons (c : ascii) (s t : string) : (String c s +:+ t) = String c (s +:+ t).
Proof. reflexivity. Qed.

Lemma append_assoc3 (a b c : string) : ((a +:+ b) +:+ c) = (a +:+ (b +:+ c)).
Proof.
  induction a as [|x a IH]; [reflexivity|]. rewrite !append_cons. now rewrite IH.
Qed.

Lemma stripPrefix_Some (p s r : string) :
  stripPrefix p s = Some r <-> s = (p +:+ r).
Proof.
  revert s. induction p as [|a p IH]; intros s.
  - rewrite append_nil. simpl. split; [now intros [= ->]|now intros ->].
  - rewrite append_cons. simpl. destruct s as [|b s]; [split; discriminate|].
    destruct (Ascii.eqb_spec a b) as [->|Hne].
    + rewrite IH. split; [now intros ->|now intros [= ->]].
    + split; [discriminate|]. intros [= -> _]. congruence.
Qed.

Lemma spanName_split (s name tail : string) :
  spanName s = (name, tail) ->
  s = (name +:+ tail) /\ forallb isNameChar (list_ascii_of_string name) = true.
Proof.
  revert name tail. induction s as [|c s IH]; intros name tail; simpl.
  - intros [= <- <-]. auto.
  - destruct (isNameChar c) eqn:Hc.
    + destruct (spanName s) as [name' tail']. intros [= <- <-].
      destruct (IH name' tail' eq_refl) as [-> Hall]. rewrite append_cons. simpl.
      now rewrite Hc.
    + intros [= <- <-]. auto.
Qed.

Lemma spanName_stop (name : string) (q : ascii) (tail : string) :
  forallb isNameChar (list_ascii_of_string name) = true ->
  isNameChar q = false ->
  spanName (name +:+ String q tail) = (name, String q tail).
Proof.
  intros Hall Hq. induction name as [|c name IH].
  - rewrite append_nil. simpl. now rewrite Hq.
  - rewrite append_cons. simpl in *.
    apply andb_true_iff in Hall as [Hc Hall]. rewrite Hc, (IH Hall). reflexivity.
Qed.

Lemma quote_is_no_name_char (q : ascii) : isQuote q = true -> isNameChar q = false.
Proof. intros H. destruct (isQuote_cases q H) as [->|[->| ->]]; reflexivity. Qed.

Lemma eventPatternMatch_shape (kebab text name : string) :
  eventPatternMatch kebab text = Some name <->
  exists q, isQuote q = true /\
            text = String q (kebab +:+ "." +:+ name +:+ String q "") /\
            isName name.
Proof.
  unfold eventPatternMatch, isName. split.
  - destruct text as [|q rest]; [discriminate|].
    destruct (isQuote q) eqn:Hq; [|discriminate].
    destruct (stripPrefix (kebab +:+ ".") rest) as [afterDot|] eqn:Hstrip; [|discriminate].
    destruct (spanName afterDot) as [name' tail] eqn:Hspan.
    destruct (negb (String.eqb name' "") && String.eqb tail (String q "")) eqn:Hok;
      [|discriminate].
    intros [= ->]. apply andb_true_iff in Hok as [Hne Htail].
    apply String.eqb_eq in Htail. subst tail.
    apply stripPrefix_Some in Hstrip. destruct (spanName_split _ _ _ Hspan) as [-> Hall].
    exists q. split; [exact Hq|]. split.
    + rewrite Hstrip, append_assoc3. reflexivity.
    + split; [|exact Hall]. intros ->. discriminate.
  - intros (q & Hq & -> & Hne & Hall). rewrite Hq.
    rewrite <- append_assoc3.
    rewrite (proj2 (stripPrefix_Some (kebab +:+ ".") _ (name +:+ String q "")) eq_refl).
    rewrite (spanName_stop name q "" Hall (quote_is_no_name_char q Hq)).
    rewrite String.eqb_refl.
    destruct (String.eqb_spec name "") as [->|_]; [contradiction|reflexivity].
Qed.

(** X5. For a service whose kebab-case name is made of letters, digits and
    hyphens, the event check accepts exactly the texts made of a quote,
    that name, a dot, a non-empty name of word characters and hyphens, and
    the same quote again; the name it captures is that name. *)
Theorem event_pattern_shape (kebab text name : string) :
  takenLiterally kebab = true ->
  (eventPatternMatch kebab text = Some name <->
   exists q, isQuote q = true /\
             text = String q (kebab +:+ "." +:+ name +:+ String q "") /\
             isName name).
Proof. intros _. apply eventPatternMatch_shape. Qed.

Lemma event_pattern_shape_witness :
  eventPatternMatch "order-items"
    (String "'"%char ("order-items" +:+ "." +:+ "line_added" +:+ String "'"%char ""))
  = Some "line_added".
Proof.
  apply event_pattern_shape; [reflexivity|]. exists "'"%char.
  split; [reflexivity|]. split; [reflexivity|]. split; [discriminate|reflexivity].
Defined.

Lemma processMethod_event (service kebab : string) file classNode method (info : MethodInfo) :
  processMethod service kebab file classNode method = Ok (Extracted info) ->
  if isEventHandler info
  then exists name, eventPatternMatch kebab (pattern info) = Some name /\
                    eventName info = Some (Remeda.toCamelCase name)
  else startsWith (methodName info) "emit" = false /\ eventName info = None.
Proof.
  unfold processMethod.
  destruct (List.find _ (getDecorators method)) as [d|]; [|discriminate].
  destruct (getArguments d) as [|patternExpr args]; [discriminate|].
  set (isEvent := match calleeIdentifier d with
                  | Some text => String.eqb text "EventPattern"
                  | None => false
                  end).
  destruct (isEvent && negb (isStringLike _)); [discriminate|].
  destruct (negb isEvent && startsWith _ _) eqn:Hemit; [discriminate|].
  destruct (resolvePattern patternExpr) as [text|]; [|discriminate].
  destruct (isEvent && negb _) eqn:Hformat; [discriminate|].
  intros [= <-]. simpl. destruct isEvent; simpl in *.
  - destruct (eventPatternMatch kebab text) as [name|]; [|discriminate].
    exists name. auto.
  - auto.
Qed.

(** X6. In a service whose kebab-case name is made of letters, digits and
    hyphens, every event record keeps the shape of its routing key: the
    pattern is the service name, a dot and a name between quotes, the event
    name is the camel case of that name, and the client method is emit
    followed by the capitalized event name. A request record has no event
    name and its client method is the handler's own name. *)
Theorem event_record_invariant
    (service kebab : string) (file : SourceFile) (classNode : ClassDecl)
    (method : MethodDecl) (info : MethodInfo) :
  takenLiterally kebab = true ->
  processMethod service kebab file classNode method = Ok (Extracted info) ->
  (isEventHandler info = true ->
   exists q name,
     isQuote q = true /\ isName name /\
     pattern info = String q (kebab +:+ "." +:+ name +:+ String q "") /\
     eventName info = Some (Remeda.toCamelCase name) /\
     clientMethodName info = "emit" +:+ Remeda.capitalize (Remeda.toCamelCase name)) /\
  (isEventHandler info = false ->
   eventName info = None /\ clientMethodName info = getName method).
Proof.
  intros _ Hp. pose proof (processMethod_event _ _ _ _ _ _ Hp) as Hkind.
  destruct (processMethod_extracted _ _ _ _ _ _ Hp) as (_ & Hname & _).
  unfold clientMethodName. destruct (isEventHandler info); split; try discriminate; intros _.
  - destruct Hkind as (name & Hmatch & Hevent).
    apply eventPatternMatch_shape in Hmatch as (q & Hq & Hpattern & Hn).
    exists q, name. rewrite Hevent. auto.
  - destruct Hkind as [_ Hnone]. auto.
Qed.

Lemma event_record_invariant_witness :
  exists info,
    processMethod "Users" "users" usersController
      (controllerClass "UsersController" []) onCreated = Ok (Extracted info) /\
    pattern info = quoted "users.created" /\ eventName info = Some "created".
Proof.
  destruct (processMethod "Users" "users" usersController
              (controllerClass "UsersController" []) onCreated) as [[| |info]|] eqn:Hp;
    try discriminate.
  exists info. split; [reflexivity|].
  destruct (event_record_invariant "Users" "users" _ _ _ _ eq_refl Hp) as [Hevent _].
  pose proof Hp as Hconcrete. vm_compute in Hconcrete. injection Hconcrete as Hinfo.
  destruct Hevent as (q & name & _ & _ & Hpattern & Hname & _).
  - now rewrite <- Hinfo.
  - rewrite <- Hinfo. split; reflexivity.
Defined.

(** X7. The kind of dispatch the runtime picks from a client method name
    agrees with the kind of the handler the generator made the name for: a
    name generated for an event handler starts with emit and is dispatched
    by emit as a stream, a name generated for a request handler does not
    start with emit and is dispatched by send. *)
Theorem dispatch_agrees_with_handler_kind
    (service kebab : string) (file : SourceFile) (classNode : ClassDecl)
    (method : MethodDecl) (info : MethodInfo)
    (key hasPayload arg1 arg2 : value) (st : Runtime.ProxyState) :
  processMethod service kebab file classNode method = Ok (Extracted info) ->
  let b := Runtime.makeBinding key hasPayload (entryKey (patternEntry info)) in
  Runtime.isEmitMethod b = isEventHandler info /\
  (isEventHandler info = true -> Runtime.isObservable b = true) /\
  Runtime.mode (fst (Runtime.buildPipeline b arg1 arg2 st)) =
    (if isEventHandler info then Runtime.Emit else Runtime.Send).
Proof.
  intros Hp b.
  assert (Hemit : startsWith (clientMethodName info) "emit" = isEventHandler info).
  { pose proof (processMethod_event _ _ _ _ _ _ Hp) as Hkind.
    unfold clientMethodName. destruct (isEventHandler info); [|apply Hkind].
    unfold startsWith. rewrite !append_cons, append_nil.
    destruct (Remeda.capitalize (default "undefined" (eventName info))); reflexivity. }
  assert (Hb : Runtime.isEmitMethod b = isEventHandler info) by exact Hemit.
  split; [exact Hb|]. split.
  - intros Hevent. unfold b, Runtime.makeBinding. simpl.
    change (entryKey (patternEntry info)) with (clientMethodName info).
    now rewrite Hemit, Hevent.
  - unfold Runtime.buildPipeline. destruct (Runtime.connect st) as [src st']. simpl.
    change (entryKey (patternEntry info)) with (clientMethodName info).
    now rewrite Hemit.
Qed.

Lemma dispatch_agrees_with_handler_kind_witness :
  exists info,
    processMethod "Users" "users" usersController
      (controllerClass "UsersController" []) findOrder = Ok (Extracted info) /\
    Runtime.mode (fst (Runtime.buildPipeline
                         (Runtime.makeBinding (JStr "k") (JBool true)
                                              (entryKey (patternEntry info)))
                         JUndefined JUndefined Runtime.initialProxy)) = Runtime.Send.
Proof.
  destruct (processMethod "Users" "users" usersController
              (controllerClass "UsersController" []) findOrder) as [[| |info]|] eqn:Hp;
    try discriminate.
  exists info. split; [reflexivity|].
  destruct (dispatch_agrees_with_handler_kind _ _ _ _ _ _ (JStr "k") (JBool true)
              JUndefined JUndefined Runtime.initialProxy Hp) as (_ & _ & ->).
  pose proof Hp as Hconcrete. vm_compute in Hconcrete. injection Hconcrete as <-.
  reflexivity.
Defined.

End EventKeyFacts.

(** ** More on the runtime *)

Section ProxyFacts.
Import Runtime Examples.
#[local] Open Scope N_scope.

(** X8. A successful property access is remembered: the same access
    afterwards returns the same bound function and changes nothing,
    whatever the routing-key map holds by then; the access touches neither
    the first-call flag nor the functions bound to other names. *)
Theorem get_memoizes
    (patternMap : value) (service : string) (st st' : ProxyState)
    (methodName : string) (b : Binding) :
  get patternMap service st methodName = Ok (b, st') ->
  (forall otherMap, get otherMap service st' methodName = Ok (b, st')) /\
  target st' !! methodName = Some b /\
  firstCall st' = firstCall st /\
  (forall other, other <> methodName -> target st' !! other = target st !! other).
Proof.
  unfold get. destruct (target st !! methodName) as [bound|] eqn:Hlookup.
  - intros [= <- <-]. rewrite Hlookup. auto.
  - destruct (get_prop patternMap service) as [entry|e]; [|discriminate]. simpl.
    destruct (destructurePair entry) as [pair|e]; [|discriminate]. simpl.
    intros [= <- <-]. simpl. rewrite lookup_insert_eq. repeat split; try reflexivity.
    intros other Hother. now rewrite lookup_insert_ne.
Qed.

Lemma get_memoizes_witness :
  exists b st',
    get pairMap "users" initialProxy "getUser" = Ok (b, st') /\
    get generatedMap "users" st' "getUser" = Ok (b, st').
Proof.
  destruct (get pairMap "users" initialProxy "getUser") as [[b st']|e] eqn:Hget;
    [|discriminate].
  exists b, st'. split; [reflexivity|].
  apply (proj1 (get_memoizes pairMap "users" initialProxy st' "getUser" b Hget)).
Defined.

(** What [connection$] does for any transport: it invokes connect at its
    subscription, counts one invocation per attempt, never more than one
    per retry allowed, and ends, established or given up, within the time
    of the attempts and the delays between them. *)
Lemma connection_bounds (tr : Transport) (retries i : nat) (t : N) :
  exists events n' phase,
    connection tr retries i t = (events, n', phase) /\
    head events = Some (ConnectCalled t) /\
    length (List.filter isConnectCalled events) = (n' - i)%nat /\
    (i < n')%nat /\ (n' <= i + S retries)%nat /\
    exists t1, t <= t1 /\ t1 <= t + 2000 * N.of_nat (S retries) + 3000 * N.of_nat retries /\
               ((exists v, phase = Established t1 v) \/ (exists f, phase = GaveUp t1 f)).
Proof.
  revert i t. induction retries as [|k IH]; intros i t; cbn [connection];
    pose proof (attempt_bounded tr i t) as Hd;
    destruct (attempt tr i t) as [d [v|f]]; simpl in Hd.
  - eexists _, _, _. split; [reflexivity|]. split; [reflexivity|].
    simpl. repeat split; try lia. exists (t + d). split; [lia|]. split; [lia|]. left. now eexists.
  - destruct (readMessage f); eexists _, _, _; (split; [reflexivity|]);
      (split; [reflexivity|]); simpl; repeat split; try lia;
      exists (t + d); (split; [lia|]); (split; [lia|]); right; now eexists.
  - eexists _, _, _. split; [reflexivity|]. split; [reflexivity|].
    simpl. repeat split; try lia. exists (t + d). split; [lia|]. split; [lia|]. left. now eexists.
  - destruct (IH (S i) (t + d + 3000))
      as (events & n' & phase & -> & Hhead & Hcount & Hlo & Hhi & t1 & Ht1 & Ht1' & Hphase).
    eexists _, _, _. split; [reflexivity|]. split; [reflexivity|].
    simpl. rewrite Hcount. repeat split; try lia.
    exists t1. split; [lia|]. split; [lia|]. exact Hphase.
Qed.

(** X9. Whatever the transport does, a subscription to the stream of the
    first call invokes connect at once, between one and six times in all,
    and its connection phase ends, established or given up, no later than
    27000 ms after the subscription. *)
Theorem first_connection_is_bounded
    (tr : Transport) (service : string) (n : nat) (t : N) :
  exists events n' phase,
    establish tr service FirstConnection n t = (events, n', phase) /\
    head events = Some (ConnectCalled t) /\
    length (List.filter isConnectCalled events) = (n' - n)%nat /\
    (n < n')%nat /\ (n' <= n + 6)%nat /\
    exists t1, t <= t1 /\ t1 <= t + 27000 /\
               ((exists v, phase = Established t1 v) \/ (exists f, phase = GaveUp t1 f)).
Proof.
  destruct (connection_bounds tr 5 n t)
    as (events & n' & phase & Hc & Hhead & Hcount & Hlo & Hhi & t1 & Ht1 & Ht1' & Hphase).
  exists events, n', phase. unfold establish. repeat split; try assumption.
  exists t1. repeat split; try assumption. lia.
Qed.

(** [retry] stops at the first attempt that succeeds. *)
Lemma connection_succeeds_after (tr : Transport) (failures : nat) :
  forall (retries i : nat) (t : N),
    (failures <= retries)%nat ->
    (forall j t', (j < failures)%nat -> failsToConnect (connectOutcome tr (i + j)%nat t')) ->
    (forall t', connectsInTime (connectOutcome tr (i + failures)%nat t')) ->
    exists events t1 v,
      connection tr retries i t = (events, (i + S failures)%nat, Established t1 v) /\
      length (List.filter isConnectCalled events) = S failures /\
      t + 3000 * N.of_nat failures <= t1 /\
      t1 <= t + 5000 * N.of_nat failures + 2000.
Proof.
  induction failures as [|k IH]; intros retries i t Hle Hfail Hok.
  - destruct (attempt_connects tr (i + 0)%nat t (Hok t)) as (d & v & Ha).
    replace (i + 0)%nat with i in Ha by lia.
    pose proof (attempt_bounded tr i t) as Hd. rewrite Ha in Hd. simpl in Hd.
    exists [ConnectCalled t; LogDebug (t + d)], (t + d), v.
    replace (i + 1)%nat with (S i) by lia.
    destruct retries; cbn [connection]; rewrite Ha; repeat split; simpl; lia.
  - destruct retries as [|r]; [lia|].
    destruct (attempt_fails tr (i + 0)%nat t) as (d0 & f0 & Ha); [apply Hfail; lia|].
    replace (i + 0)%nat with i in Ha by lia.
    pose proof (attempt_bounded tr i t) as Hd0. rewrite Ha in Hd0. simpl in Hd0.
    destruct (IH r (S i) (t + d0 + 3000)) as (events & t1 & v & Hc & Hcount & Ht1 & Ht1').
    + lia.
    + intros j t' Hj. replace (S i + j)%nat with (i + S j)%nat by lia. apply Hfail. lia.
    + intros t'. replace (S i + k)%nat with (i + S k)%nat by lia. apply Hok.
    + exists (ConnectCalled t :: LogWarn (t + d0) f0 :: events), t1, v.
      cbn [connection]. rewrite Ha, Hc.
      replace (S i + S k)%nat with (i + S (S k))%nat by lia.
      repeat split; simpl; [now rewrite Hcount|lia|lia].
Qed.

(** X10. When connect fails some times, at most five, and then succeeds,
    the first call stops retrying at that success: connect is invoked once
    per failure and once more, the connection is established and the
    request is dispatched at that instant. A connect fails when its promise
    is rejected or is not settled after 2000 ms, and succeeds when its
    promise is fulfilled before 2000 ms. *)
Theorem first_call_connects_after_failures
    (tr : Transport) (service : string) (b : Binding) (arg1 arg2 : value)
    (st : ProxyState) (n : nat) (t : N) (failures : nat) (due : Z) :
  firstCall st = true ->
  (failures <= 5)%nat ->
  (forall j t', (j < failures)%nat -> failsToConnect (connectOutcome tr (n + j)%nat t')) ->
  (forall t', connectsInTime (connectOutcome tr (n + failures)%nat t')) ->
  let ob := fst (buildPipeline b arg1 arg2 st) in
  ms ob = JNum due ->
  exists events t1,
    fst (subscribe tr service ob n t) =
      ((events ++ [Dispatched t1 (mode ob) (boundPattern b) (sentPayload ob)])%list,
       (n + S failures)%nat) /\
    length (List.filter isConnectCalled events) = S failures /\
    List.filter isDispatched events = [] /\
    t + 3000 * N.of_nat failures <= t1 /\
    t1 <= t + 5000 * N.of_nat failures + 2000.
Proof.
  intros Hfirst Hle Hfail Hok ob Hdue.
  destruct (connection_succeeds_after tr failures 5 n t Hle Hfail Hok)
    as (events & t1 & v & Hc & Hcount & Ht1 & Ht1').
  exists events, t1.
  assert (Hpattern : sentPattern ob = boundPattern b).
  { subst ob. unfold buildPipeline. now destruct (connect st). }
  pose proof (connection_no_dispatch tr 5 n t) as Hquiet. rewrite Hc in Hquiet.
  unfold subscribe, establish. subst ob. rewrite (buildPipeline_first _ _ _ _ Hfirst).
  rewrite Hc, Hdue, Hpattern. auto.
Qed.

Lemma first_call_connects_after_failures_witness :
  exists events,
    fst (subscribe flaky "users"
           (fst (buildPipeline getUser (JStr "u1") JUndefined initialProxy)) 0 1000) =
      ((events ++ [Dispatched 7250 Send (JStr "users.get") (JStr "u1")])%list, 3%nat) /\
    length (List.filter isConnectCalled events) = 3%nat.
Proof.
  destruct (first_call_connects_after_failures flaky "users" getUser (JStr "u1") JUndefined
              initialProxy 0 1000 2 5000%Z eq_refl) as (events & t1 & Hsub & Hcount & _ & _).
  - lia.
  - intros j t' Hj. destruct j as [|[|j]]; [exact I|exact I|lia].
  - intros t'. simpl. lia.
  - reflexivity.
  - exists events. split; [|exact Hcount]. rewrite Hsub.
    assert (Hrun : fst (subscribe flaky "users"
                          (fst (buildPipeline getUser (JStr "u1") JUndefined initialProxy))
                          0 1000) =
                   (([ConnectCalled 1000; LogWarn 1100 (Reason (JStr "ECONNREFUSED"));
                      ConnectCalled 4100; LogWarn 4200 (Reason (JStr "ECONNREFUSED"));
                      ConnectCalled 7200; LogDebug 7250] ++
                     [Dispatched 7250 Send (JStr "users.get") (JStr "u1")])%list, 3%nat))
      by reflexivity.
    rewrite Hrun in Hsub. injection Hsub as Hevents.
    destruct (app_inj_tail
                [ConnectCalled 1000; LogWarn 1100 (Reason (JStr "ECONNREFUSED"));
                 ConnectCalled 4100; LogWarn 4200 (Reason (JStr "ECONNREFUSED"));
                 ConnectCalled 7200; LogDebug 7250] events _ _ Hevents) as [_ Hlast].
    injection Hlast as <-. reflexivity.
Defined.

End ProxyFacts.

Section TimeoutFacts.
Import Runtime Examples.
#[local] Open Scope N_scope.

(** A timer that is started again at every value lets a prefix of the
    stream through, each value no later than [ms] after the one before, and
    always ends: with the stream's own end when that comes in time, with
    the timeout error otherwise. *)
Lemma timeoutWithin_spec (ms : N) (emits : list (N * value)) (e : Ending) :
  let r := timeoutWithin ms true emits e in
  (exists k, emissions r = firstn k emits) /\
  Forall (fun x => fst x <= ms) (emissions r) /\
  ending r <> Pending /\
  (ending r = Errors ms TimeoutError \/ (emissions r = emits /\ ending r = e)).
Proof.
  induction emits as [|[g v] rest IH]; simpl.
  - split; [now exists 0%nat|]. split; [constructor|].
    destruct e as [gap|gap f|]; simpl; try destruct (gap <=? ms); simpl;
      split; try discriminate; auto.
  - destruct (g <=? ms) eqn:Hg; simpl.
    + destruct IH as ([k Hk] & Hall & Hend & Hcases). apply N.leb_le in Hg.
      split; [exists (S k); simpl; now rewrite Hk|]. split; [now constructor|].
      split; [exact Hend|]. destruct Hcases as [H|[H1 H2]]; [now left|right].
      now rewrite H1.
    + split; [now exists 0%nat|]. split; [constructor|]. split; [discriminate|now left].
Qed.

Lemma timeline_pending (t : N) (emits : list (N * value)) (e : Ending) :
  e <> Pending -> ending (timeline t emits e) <> Pending.
Proof.
  revert t. induction emits as [|[g v] rest IH]; intros t He; simpl.
  - destruct e; congruence.
  - apply IH, He.
Qed.

Lemma timeline_firstn (t : N) (emits : list (N * value)) (e : Ending) (k : nat) :
  map snd (emissions (timeline t (firstn k emits) e)) = firstn k (map snd emits).
Proof. rewrite timeline_values. now rewrite firstn_map. Qed.



(** X12. A call after the first one settles by what the status feed does
    first. A feed that ends without a status fails the call with the empty
    error or with the feed's own error; a feed that stays silent leaves the
    call pending for ever, whatever timeout the caller gave: the timeout
    covers the request only. In none of these cases is anything
    dispatched. *)
Theorem status_feed_decides_later_calls
    (tr : Transport) (service : string) (ob : Pipeline) (n : nat) (t : N) :
  source ob = StatusFeed ->
  (forall gap, statusFeed tr t = {| emissions := []; ending := Completes gap |} ->
     subscribe tr service ob n t =
       ([StatusSubscribed t], n, {| emissions := []; ending := Errors (t + gap) EmptyError |})) /\
  (forall gap f, statusFeed tr t = {| emissions := []; ending := Errors gap f |} ->
     subscribe tr service ob n t =
       ([StatusSubscribed t], n, {| emissions := []; ending := Errors (t + gap) f |})) /\
  (statusFeed tr t = {| emissions := []; ending := Pending |} ->
     subscribe tr service ob n t =
       ([StatusSubscribed t], n, {| emissions := []; ending := Pending |}) /\
     lastValueFrom (snd (subscribe tr service ob n t)) = Unsettled).
Proof.
  intros Hsrc. unfold subscribe, establish, awaitConnected. rewrite Hsrc.
  split; [|split].
  - intros gap ->. reflexivity.
  - intros gap f ->. reflexivity.
  - intros ->. split; reflexivity.
Qed.

Lemma status_feed_decides_later_calls_witness :
  call flaky "users" getUser (JStr "u1") (JObj [("timeout", JNum 10%Z)]) connectedProxy 3 9000
  = (ReturnsPromise Unsettled, [StatusSubscribed 9000], connectedProxy, 3%nat).
Proof.
  destruct (status_feed_decides_later_calls flaky "users"
              (fst (buildPipeline getUser (JStr "u1") (JObj [("timeout", JNum 10%Z)])
                      connectedProxy)) 3 9000 eq_refl) as (_ & _ & Hsilent).
  destruct (Hsilent eq_refl) as [Hsub Hlast].
  unfold call. cbn [buildPipeline connect firstCall connectedProxy].
  change (isObservable getUser) with false. cbv iota.
  change (fst (buildPipeline getUser (JStr "u1") (JObj [("timeout", JNum 10%Z)])
                 connectedProxy))
    with {| source := StatusFeed; mode := Send; sentPattern := JStr "users.get";
            sentPayload := JStr "u1"; ms := JNum 10%Z |} in Hsub, Hlast.
  rewrite Hsub in *. simpl in Hlast. reflexivity.
Defined.

(** X13. The stream returned by a stream method is cold, and the first
    call uses up the first-call flag even so. Calling such a method first
    does nothing at the call: no connect, no event. Every subscription to
    the returned stream starts a connection of its own, and every later
    call on the proxy goes to the status feed. *)
Theorem first_stream_call_is_cold
    (tr : Transport) (service : string) (b : Binding) (arg1 arg2 : value)
    (st : ProxyState) (n : nat) (t : N) :
  firstCall st = true ->
  isObservable b = true ->
  let ob := fst (buildPipeline b arg1 arg2 st) in
  let st' := snd (buildPipeline b arg1 arg2 st) in
  call tr service b arg1 arg2 st n t = (ReturnsStream ob, [], st', n) /\
  (forall n0 t0,
      head (fst (fst (subscribe tr service ob n0 t0))) = Some (ConnectCalled t0) /\
      (n0 < snd (fst (subscribe tr service ob n0 t0)))%nat) /\
  (forall b2 a1 a2, source (fst (buildPipeline b2 a1 a2 st')) = StatusFeed) /\
  (forall b2 a1 a2 n2 t2,
      List.filter isConnectCalled
        (snd (fst (fst (call tr service b2 a1 a2 st' n2 t2)))) = []).
Proof.
  intros Hfirst Hstream ob st'.
  assert (Hst' : firstCall st' = false) by apply buildPipeline_clears.
  split; [|split; [|split]].
  - unfold call. subst ob st'. destruct (buildPipeline b arg1 arg2 st) as [ob0 st0].
    now rewrite Hstream.
  - intros n0 t0. unfold subscribe, establish. subst ob.
    rewrite (buildPipeline_first _ _ _ _ Hfirst).
    destruct (connection_bounds tr 5 n0 t0)
      as (events & n' & phase & -> & Hhead & _ & Hlo & _ & t1 & _ & _ & Hphase).
    destruct Hphase as [[v ->]|[f ->]]; simpl.
    + destruct (ms (fst (buildPipeline b arg1 arg2 st))); simpl; split; try assumption;
        destruct events; try discriminate; exact Hhead.
    + auto.
  - intros b2 a1 a2. apply (buildPipeline_later b2 a1 a2 st' Hst').
  - intros b2 a1 a2 n2 t2. unfold call.
    destruct (buildPipeline_later b2 a1 a2 st' Hst') as [Hsrc _].
    destruct (buildPipeline b2 a1 a2 st') as [ob2 st2]. simpl in Hsrc.
    destruct (isObservable b2); [reflexivity|].
    unfold subscribe, establish. rewrite Hsrc.
    destruct (awaitConnected tr service t2) as [t1 v|t1 f|]; simpl; try reflexivity.
    destruct (ms ob2); reflexivity.
Qed.

Lemma first_stream_call_is_cold_witness :
  exists ob st',
    call refusing "users" (makeBinding (JStr "users.all") (JBool false) "all$")
      JUndefined JUndefined initialProxy 0 1000 = (ReturnsStream ob, [], st', 0%nat) /\
    List.filter isConnectCalled
      (snd (fst (fst (call refusing "users" getUser (JStr "u1") JUndefined st' 0 2000)))) = [].
Proof.
  destruct (first_stream_call_is_cold refusing "users"
              (makeBinding (JStr "users.all") (JBool false) "all$")
              JUndefined JUndefined initialProxy 0 1000 eq_refl eq_refl)
    as (Hcall & _ & _ & Hlater).
  eexists _, _. split; [exact Hcall|]. apply Hlater.
Defined.

End TimeoutFacts.

(** ** The routing-key map and the run as a whole *)

Section MapFacts.
Import Generator Examples.

Lemma patternEntry_alias (service : string) (methods : list MethodInfo) :
  map patternEntry (aliasDuplicateClassNames service methods) = map patternEntry methods /\
  map serviceName (aliasDuplicateClassNames service methods) = map serviceName methods.
Proof.
  unfold aliasDuplicateClassNames. rewrite !map_map.
  split; apply map_ext; intros info; now destruct (usedByTwoFiles methods (className info)).
Qed.

Lemma scanModule_records (m : ServiceModule) (s s' : GenState) (methods : list MethodInfo) :
  scanModule m s = (Ok (Some methods), s') -> methods = recordsOf m /\ methods <> [].
Proof.
  unfold scanModule, recordsOf.
  pose proof (scanSites_spec (serviceNameOf m) (Remeda.toKebabCase (serviceNameOf m))
                (handlerSites (controllers m)) s) as H.
  destruct (scanSites _ _ _ s) as [[infos|e] s0]; [|discriminate].
  destruct H as [<- _]. destruct infos as [|info infos]; [discriminate|].
  intros [= <- _]. split; [reflexivity|discriminate].
Qed.

Lemma scanModule_none (m : ServiceModule) (s s' : GenState) :
  scanModule m s = (Ok None, s') -> recordsOf m = [].
Proof.
  unfold scanModule, recordsOf.
  pose proof (scanSites_spec (serviceNameOf m) (Remeda.toKebabCase (serviceNameOf m))
                (handlerSites (controllers m)) s) as H.
  destruct (scanSites _ _ _ s) as [[infos|e] s0]; [|discriminate].
  destruct H as [<- _]. destruct infos as [|info infos]; [reflexivity|discriminate].
Qed.

(** What the loop has recorded, however it ended: under the path of a
    module, the records of that module. *)
Lemma scanModules_collected (modules : list ServiceModule) acc (s s' : GenState) r byModule :
  scanModules modules acc s = (r, byModule, s') ->
  forall path group, In (path, group) byModule ->
    In (path, group) acc \/
    exists m, In m modules /\ path = modulePath m /\ group = recordsOf m /\ group <> [].
Proof.
  revert acc s. induction modules as [|m rest IH]; intros acc s; simpl.
  - intros [= _ <- _] path group Hin. now left.
  - destruct (scanModule m s) as [[[methods|]|e] s0] eqn:Hscan.
    + intros Hrest path group Hin.
      destruct (IH _ _ Hrest path group Hin) as [Hacc|(m' & Hm' & Hg)].
      * apply set_field_In in Hacc as [[-> ->]|Hacc]; [|now left].
        right. exists m. split; [now left|]. split; [reflexivity|].
        apply (scanModule_records _ _ _ _ Hscan).
      * right. exists m'. split; [now right|exact Hg].
    + intros Hrest path group Hin.
      destruct (IH _ _ Hrest path group Hin) as [Hacc|(m' & Hm' & Hg)]; [now left|].
      right. exists m'. split; [now right|exact Hg].
    + intros [= _ <- _] path group Hin. now left.
Qed.

(** A loop that returns has an entry for every module with records. *)
Lemma scanModules_keys (modules : list ServiceModule) acc (s s' : GenState) byModule :
  scanModules modules acc s = (Ok tt, byModule, s') ->
  (forall k, In k (map fst acc) -> In k (map fst byModule)) /\
  (forall m, In m modules -> recordsOf m <> [] -> In (modulePath m) (map fst byModule)).
Proof.
  revert acc s. induction modules as [|m rest IH]; intros acc s; simpl.
  - intros [= <- _]. split; [auto|intros m []].
  - destruct (scanModule m s) as [[[methods|]|e] s0] eqn:Hscan; [| |discriminate].
    + intros Hrest. destruct (IH _ _ Hrest) as [Hacc Hmods]. split.
      * intros k Hk. apply Hacc. unfold set_field. apply upsert_keys. now right.
      * intros m' [<-|Hm'] Hrecords; [|now apply Hmods].
        apply Hacc. unfold set_field. apply upsert_keys. now left.
    + intros Hrest. destruct (IH _ _ Hrest) as [Hacc Hmods]. split; [exact Hacc|].
      intros m' [<-|Hm'] Hrecords; [|now apply Hmods].
      exfalso. apply Hrecords. apply (scanModule_none _ _ _ Hscan).
Qed.

Lemma patternMapOf_entries byModule acc pm :
  patternMapOf byModule acc = Ok pm ->
  forall key entries, In (key, entries) pm ->
    In (key, entries) acc \/
    exists path first rest,
      In (path, first :: rest) byModule /\
      key = Remeda.uncapitalize (serviceName first) /\
      entries = map patternEntry (first :: rest).
Proof.
  revert acc. induction byModule as [|[path group] more IH]; intros acc; simpl.
  - intros [= <-] key entries Hin. now left.
  - destruct group as [|first rest]; [discriminate|].
    intros Hmore key entries Hin.
    destruct (IH _ Hmore key entries Hin) as [Hacc|(p & f & r & Hp & Hk & He)].
    + apply set_field_In in Hacc as [[-> ->]|Hacc]; [|now left].
      right. exists path, first, rest. split; [now left|]. auto.
    + right. exists p, f, r. split; [now right|]. auto.
Qed.

(** The map has a key for every group of records. *)
Lemma patternMapOf_keys byModule acc pm :
  patternMapOf byModule acc = Ok pm ->
  (forall k, In k (map fst acc) -> In k (map fst pm)) /\
  (forall path first rest, In (path, first :: rest) byModule ->
     In (Remeda.uncapitalize (serviceName first)) (map fst pm)).
Proof.
  revert acc. induction byModule as [|[path group] more IH]; intros acc; simpl.
  - intros [= <-]. split; [auto|intros path first rest []].
  - destruct group as [|first rest]; [discriminate|].
    intros Hmore. destruct (IH _ Hmore) as [Hacc Hgroups]. split.
    + intros k Hk. apply Hacc. unfold set_field. apply upsert_keys. now right.
    + intros path' first' rest' [[= _ <- <-]|Hin]; [|exact (Hgroups path' first' rest' Hin)].
      apply Hacc. unfold set_field. apply upsert_keys. now left.
Qed.

Lemma siteRecords_In (service kebab : string) sites (info : MethodInfo) :
  In info (flat_map (siteRecords service kebab) sites) <->
  exists file classNode method,
    In (file, classNode, method) sites /\
    processMethod service kebab file classNode method = Ok (Extracted info).
Proof.
  rewrite in_flat_map. split.
  - intros ([[file classNode] method] & Hsite & Hin).
    exists file, classNode, method. split; [exact Hsite|].
    unfold siteRecords in Hin.
    destruct (processMethod service kebab file classNode method) as [[|d|info']|e];
      simpl in Hin; try contradiction.
    destruct Hin as [->|[]]. reflexivity.
  - intros (file & classNode & method & Hsite & Hp).
    exists (file, classNode, method). split; [exact Hsite|].
    unfold siteRecords. rewrite Hp. now left.
Qed.

(** The records of a module carry its service name, and their entries are
    those of the handlers extracted in it. *)
Lemma recordsOf_entries (m : ServiceModule) :
  (forall record, In record (recordsOf m) -> serviceName record = serviceNameOf m) /\
  (forall e, In e (map patternEntry (recordsOf m)) <->
     exists file classNode method info,
       In (file, classNode, method) (handlerSites (controllers m)) /\
       processMethod (serviceNameOf m) (Remeda.toKebabCase (serviceNameOf m))
                     file classNode method = Ok (Extracted info) /\
       e = patternEntry info).
Proof.
  destruct (patternEntry_alias (serviceNameOf m)
              (flat_map (siteRecords (serviceNameOf m) (Remeda.toKebabCase (serviceNameOf m)))
                        (handlerSites (controllers m)))) as [Hentries Hnames].
  fold (recordsOf m) in Hentries, Hnames. split.
  - intros record Hin. apply (in_map serviceName) in Hin. rewrite Hnames in Hin.
    apply in_map_iff in Hin as (info & <- & Hin).
    apply siteRecords_In in Hin as (f & c & me & _ & Hp).
    apply (processMethod_extracted _ _ _ _ _ _ Hp).
  - intros e. rewrite Hentries, in_map_iff. split.
    + intros (info & <- & Hin). apply siteRecords_In in Hin as (f & c & me & Hsite & Hp).
      now exists f, c, me, info.
    + intros (f & c & me & info & Hsite & Hp & ->). exists info. split; [reflexivity|].
      apply siteRecords_In. now exists f, c, me.
Qed.

(** Where an entry of the map comes from. *)
Lemma main_entry_origin
    (modules : list ServiceModule) (pm : list (string * list PatternEntry))
    (key : string) (entries : list PatternEntry) :
  returned (main modules) = Ok pm ->
  In (key, entries) pm ->
  exists m, In m modules /\ key = serviceKey m /\
            entries = map patternEntry (recordsOf m) /\ recordsOf m <> [].
Proof.
  unfold main.
  destruct (scanModules modules [] initialState) as [[[u|err] byModule] s] eqn:Hscan;
    [|discriminate].
  simpl. intros Hpm Hkey.
  destruct (patternMapOf_entries _ _ _ Hpm key entries Hkey)
    as [[]|(path & first & rest & Hgroup & -> & ->)].
  destruct (scanModules_collected _ _ _ _ _ _ Hscan path (first :: rest) Hgroup)
    as [[]|(m & Hm & _ & Hrecords & Hne)].
  exists m. split; [exact Hm|]. rewrite Hrecords in *. split; [|auto].
  unfold serviceKey. f_equal.
  apply (proj1 (recordsOf_entries m)). rewrite <- Hrecords. now left.
Qed.

Lemma NoDup_map_In_eq {A B} (f : A -> B) (l : list A) (a b : A) :
  List.NoDup (map f l) -> In a l -> In b l -> f a = f b -> a = b.
Proof.
  induction l as [|x l IH]; simpl; intros Hnd Ha Hb Heq; [destruct Ha|].
  inversion Hnd as [|? ? Hfresh Hnd']; subst.
  destruct Ha as [->|Ha], Hb as [->|Hb]; auto.
  - exfalso. apply Hfresh. rewrite Heq. now apply in_map.
  - exfalso. apply Hfresh. rewrite <- Heq. now apply in_map.
Qed.

(** When the services have distinct keys, every module with records has
    its entries in the map. *)
Lemma main_entries_of_module
    (modules : list ServiceModule) (pm : list (string * list PatternEntry)) (m : ServiceModule) :
  returned (main modules) = Ok pm ->
  List.NoDup (map serviceKey modules) ->
  In m modules -> recordsOf m <> [] ->
  In (serviceKey m, map patternEntry (recordsOf m)) pm.
Proof.
  intros Hpm Hnd Hm Hrecords.
  assert (Hkey : In (serviceKey m) (map fst pm)).
  { unfold main in Hpm.
    destruct (scanModules modules [] initialState) as [[[u|err] byModule] s] eqn:Hscan;
      [|discriminate].
    simpl in Hpm. destruct u.
    pose proof (proj2 (scanModules_keys _ _ _ _ _ Hscan) m Hm Hrecords) as Hpath.
    apply in_map_iff in Hpath as ([path group] & Hp & Hin). simpl in Hp. subst path.
    destruct (scanModules_collected _ _ _ _ _ _ Hscan _ _ Hin)
      as [[]|(m' & Hm' & Hpath & Hgroup & Hne)].
    assert (Hsame : serviceKey m' = serviceKey m).
    { unfold serviceKey, serviceNameOf. now rewrite Hpath. }
    rewrite (NoDup_map_In_eq serviceKey modules m' m Hnd Hm' Hm Hsame) in Hgroup.
    destruct group as [|first rest]; [congruence|].
    pose proof (proj2 (patternMapOf_keys _ _ _ Hpm) _ _ _ Hin) as Hk.
    replace (serviceName first) with (serviceNameOf m) in Hk; [exact Hk|].
    symmetry. apply (proj1 (recordsOf_entries m)). rewrite <- Hgroup. now left. }
  apply in_map_iff in Hkey as ([key entries] & Hk & Hin). simpl in Hk. subst key.
  destruct (main_entry_origin modules pm _ entries Hpm Hin) as (m' & Hm' & Hsame & -> & _).
  rewrite <- (NoDup_map_In_eq serviceKey modules m m' Hnd Hm Hm' Hsame) in Hin. exact Hin.
Qed.



(** C10. In the routing-key map that [main] generates, every entry is the
    entry of a handler extracted in a module of the run, under the key of
    that module's service, and its flag is true exactly when the payload
    parameter index of the handler is not -1, which is exactly when the
    method declares a parameter; the index is that of the first parameter
    annotated Payload or Body when there is one, and 0 otherwise. When the
    services have distinct keys, every extracted handler has such an entry
    in the map. *)
Theorem hasPayload_iff_parameter
    (modules : list ServiceModule) (pm : list (string * list PatternEntry)) :
  returned (main modules) = Ok pm ->
  (forall key entries e,
      In (key, entries) pm -> In e entries ->
      exists m file classNode method info,
        In m modules /\
        In (file, classNode, method) (handlerSites (controllers m)) /\
        processMethod (serviceNameOf m) (Remeda.toKebabCase (serviceNameOf m))
                      file classNode method = Ok (Extracted info) /\
        key = serviceKey m /\
        entryKey e = clientMethodName info /\
        entryPattern e = pattern info /\
        (entryHasPayload e = true <-> paramIndex info <> (-1)%Z) /\
        (paramIndex info <> (-1)%Z <-> getParameters method <> []) /\
        (existsb isPayloadParameter (getParameters method) = true ->
         exists i p,
           paramIndex info = Z.of_nat i /\
           nth_error (getParameters method) i = Some p /\
           isPayloadParameter p = true /\
           forall j p', (j < i)%nat -> nth_error (getParameters method) j = Some p' ->
                        isPayloadParameter p' = false) /\
        (existsb isPayloadParameter (getParameters method) = false ->
         getParameters method <> [] -> paramIndex info = 0%Z)) /\
  (List.NoDup (map serviceKey modules) ->
   forall m file classNode method info,
     In m modules ->
     In (file, classNode, method) (handlerSites (controllers m)) ->
     processMethod (serviceNameOf m) (Remeda.toKebabCase (serviceNameOf m))
                   file classNode method = Ok (Extracted info) ->
     exists entries e,
       In (serviceKey m, entries) pm /\ In e entries /\
       entryKey e = clientMethodName info /\
       entryPattern e = pattern info /\
       (entryHasPayload e = true <-> getParameters method <> [])).
Proof.
  intros Hpm.
  assert (Hflag : forall file classNode method info service kebab,
            processMethod service kebab file classNode method = Ok (Extracted info) ->
            (entryHasPayload (patternEntry info) = true <-> paramIndex info <> (-1)%Z) /\
            (paramIndex info <> (-1)%Z <-> getParameters method <> [])).
  { intros file classNode method info service kebab Hp.
    destruct (processMethod_extracted _ _ _ _ _ _ Hp) as (Hindex & _ & _).
    destruct (payloadIndex_cases (getParameters method)) as (Hany & _ & _).
    rewrite Hindex. split; [|exact Hany].
    unfold patternEntry. simpl. rewrite Hindex. rewrite negb_true_iff, Z.eqb_neq. tauto. }
  split.
  - intros key entries e Hkey He.
    destruct (main_entry_origin modules pm key entries Hpm Hkey) as (m & Hm & -> & -> & _).
    apply (proj2 (recordsOf_entries m)) in He
      as (file & classNode & method & info & Hsite & Hp & ->).
    exists m, file, classNode, method, info.
    destruct (Hflag _ _ _ _ _ _ Hp) as [Htrue Hany].
    destruct (processMethod_extracted _ _ _ _ _ _ Hp) as (Hindex & _ & _).
    destruct (payloadIndex_cases (getParameters method)) as (_ & Hzero & Hdecorated).
    repeat (split; [first [assumption|reflexivity]|]). split.
    + intros Hex. rewrite Hindex, (Hdecorated Hex). apply findIndex_first, Hex.
    + intros Hex Hne. rewrite Hindex. now apply Hzero.
  - intros Hnd m file classNode method info Hm Hsite Hp.
    assert (He : In (patternEntry info) (map patternEntry (recordsOf m))).
    { apply (proj2 (recordsOf_entries m)). now exists file, classNode, method, info. }
    assert (Hrecords : recordsOf m <> []).
    { intros Hnil. rewrite Hnil in He. destruct He. }
    exists (map patternEntry (recordsOf m)), (patternEntry info).
    split; [apply (main_entries_of_module modules pm m Hpm Hnd Hm Hrecords)|].
    split; [exact He|]. split; [reflexivity|]. split; [reflexivity|].
    destruct (Hflag _ _ _ _ _ _ Hp) as [Htrue Hany]. now rewrite Htrue.
Qed.

Lemma hasPayload_iff_parameter_witness :
  exists pm entries e,
    returned (main [usersModule]) = Ok pm /\
    In ("users", entries) pm /\ In e entries /\
    entryKey e = "findOrder" /\ entryHasPayload e = true.
Proof.
  destruct (returned (main [usersModule])) as [pm|] eqn:Hpm; [|discriminate].
  destruct (hasPayload_iff_parameter [usersModule] pm Hpm) as [_ Hevery].
  destruct (Hevery ltac:(repeat constructor; intros [])
              usersModule usersController
              (controllerClass "UsersController" [onCreated; emitWelcome; findOrder]) findOrder
              {| controllerPath := "/repo/apps/users/src/users.controller.ts";
                 className := "UsersController";
                 methodName := "findOrder";
                 pattern := "[" +:+ quoted "orders" +:+ ",1]";
                 paramIndex := 1;
                 serviceName := "Users";
                 isEventHandler := false;
                 eventName := None;
                 position := "12:3" |})
    as (entries & e & Hkey & He & Hname & _ & Hflag).
  - now left.
  - right. right. now left.
  - reflexivity.
  - exists pm, entries, e. split; [reflexivity|]. split; [exact Hkey|]. split; [exact He|].
    split; [exact Hname|]. apply Hflag. discriminate.
Defined.

Lemma processMethod_throws (service kebab : string) file classNode method :
  hasRoutingKey (file, classNode, method) = false ->
  exists err, processMethod service kebab file classNode method = Throw err.
Proof.
  unfold hasRoutingKey, processMethod. simpl.
  destruct (List.find _ (getDecorators method)) as [d|]; [|discriminate].
  destruct (getArguments d); [now eexists|discriminate].
Qed.

Lemma scanSites_throws (service kebab : string) sites (s : GenState) :
  (exists site, In site sites /\ hasRoutingKey site = false) ->
  exists err s', scanSites service kebab sites s = (Throw err, s') /\
                 exists ds, s' = reportAll ds s.
Proof.
  intros (site & Hin & Hbad).
  pose proof (scanSites_spec service kebab sites s) as Hspec.
  destruct (scanSites service kebab sites s) as [[infos|err] s'] eqn:Hscan.
  - exfalso. clear Hspec. revert s infos s' Hscan.
    induction sites as [|[[file classNode] method] rest IH]; intros s infos s' Hscan;
      [destruct Hin|].
    simpl in Hscan.
    destruct (processMethod service kebab file classNode method) as [[|d|info]|e] eqn:Hp;
      try discriminate;
      (destruct Hin as [<-|Hin];
       [destruct (processMethod_throws service kebab _ _ _ Hbad) as [err Herr]; congruence|]).
    + apply (IH Hin _ _ _ Hscan).
    + apply (IH Hin _ _ _ Hscan).
    + destruct (scanSites service kebab rest s) as [[infos'|e] s0] eqn:Hrest; [|discriminate].
      apply (IH Hin _ _ _ Hrest).
  - now exists err, s'.
Qed.

Lemma scanSites_throw_cause (service kebab : string) sites (s s' : GenState) (err : string) :
  scanSites service kebab sites s = (Throw err, s') ->
  exists site, In site sites /\ hasRoutingKey site = false.
Proof.
  revert s s' err.
  induction sites as [|[[file classNode] method] rest IH]; intros s s' err; simpl;
    [discriminate|].
  destruct (processMethod service kebab file classNode method) as [[|d|info]|e] eqn:Hp.
  - intros H. destruct (IH _ _ _ H) as (site & Hin & Hbad). exists site. auto.
  - intros H. destruct (IH _ _ _ H) as (site & Hin & Hbad). exists site. auto.
  - destruct (scanSites service kebab rest s) as [[infos|e] s0] eqn:Hrest; [discriminate|].
    intros _. destruct (IH _ _ _ Hrest) as (site & Hin & Hbad). exists site. auto.
  - intros _. exists (file, classNode, method). split; [now left|].
    destruct (hasRoutingKey (file, classNode, method)) eqn:Hk; [|reflexivity].
    destruct (processMethod_returns service kebab file classNode method Hk) as [x Hx].
    congruence.
Qed.

Lemma hasBareAnnotation_iff (m : ServiceModule) :
  hasBareAnnotation m = true <->
  exists site, In site (handlerSites (controllers m)) /\ hasRoutingKey site = false.
Proof.
  unfold hasBareAnnotation. rewrite existsb_exists.
  split; intros (site & Hin & H); exists site; (split; [exact Hin|]).
  - now apply negb_true_iff.
  - now apply negb_true_iff.
Qed.

Lemma scanModule_throws_iff (m : ServiceModule) (s : GenState) :
  (exists err s', scanModule m s = (Throw err, s')) <-> hasBareAnnotation m = true.
Proof.
  rewrite hasBareAnnotation_iff. unfold scanModule. split.
  - intros (err & s' & Hscan).
    destruct (scanSites _ _ _ s) as [[infos|e'] s1] eqn:Hsites.
    + destruct infos; discriminate.
    + apply (scanSites_throw_cause _ _ _ _ _ _ Hsites).
  - intros Hbad.
    destruct (scanSites_throws (serviceNameOf m) (Remeda.toKebabCase (serviceNameOf m))
                (handlerSites (controllers m)) s Hbad) as (err & s' & -> & _).
    now exists err, s'.
Qed.

(** The loop stops at the first module that throws, with what the modules
    before it have recorded and printed. *)
Lemma scanModules_stops (before after : list ServiceModule) (m : ServiceModule)
    acc (s : GenState) :
  Forall (fun m' => hasBareAnnotation m' = false) before ->
  hasBareAnnotation m = true ->
  exists byModule s1 err s2,
    scanModules before acc s = (Ok tt, byModule, s1) /\
    scanModule m s1 = (Throw err, s2) /\
    scanModules (before ++ m :: after) acc s = (Throw err, byModule, s2).
Proof.
  intros Hgood Hbad. revert acc s.
  induction Hgood as [|m0 rest Hm0 Hrest IH]; intros acc s; simpl.
  - destruct (proj2 (scanModule_throws_iff m s) Hbad) as (err & s2 & Hscan).
    exists acc, s, err, s2. rewrite Hscan. auto.
  - destruct (scanModule m0 s) as [[[methods|]|e] s0] eqn:Hscan.
    + apply IH.
    + apply IH.
    + exfalso. assert (Hthrows : hasBareAnnotation m0 = true).
      { apply (scanModule_throws_iff m0 s). now exists e, s0. }
      congruence.
Qed.

(** A list with a module that throws splits at the first such module. *)
Lemma first_bare_module (modules : list ServiceModule) :
  (exists m, In m modules /\ hasBareAnnotation m = true) ->
  exists before m after,
    modules = (before ++ m :: after)%list /\
    Forall (fun m' => hasBareAnnotation m' = false) before /\
    hasBareAnnotation m = true.
Proof.
  induction modules as [|m0 rest IH]; intros (m & Hin & Hbad); [destruct Hin|].
  destruct (hasBareAnnotation m0) eqn:H0.
  - exists [], m0, rest. auto.
  - destruct Hin as [->|Hin]; [congruence|].
    destruct (IH (ex_intro _ m (conj Hin Hbad))) as (before & m1 & after & -> & Hgood & Hm1).
    exists (m0 :: before), m1, after. split; [reflexivity|]. split; [|exact Hm1].
    now constructor.
Qed.

Lemma scanModules_nonEmpty (modules : list ServiceModule) acc (s s' : GenState) r byModule :
  scanModules modules acc s = (r, byModule, s') ->
  groupsNonEmpty acc -> groupsNonEmpty byModule.
Proof.
  revert acc s. induction modules as [|m rest IH]; intros acc s; simpl.
  - now intros [= _ <- _].
  - destruct (scanModule m s) as [[[methods|]|e] s0] eqn:Hscan.
    + intros H Hacc. apply (IH _ _ H). apply set_field_nonEmpty; [|exact Hacc].
      apply (scanModule_records _ _ _ _ Hscan).
    + intros H Hacc. apply (IH _ _ H Hacc).
    + now intros [= _ <- _].
Qed.

Lemma main_throw_is_scan_throw (modules : list ServiceModule) (err : string) :
  returned (main modules) = Throw err ->
  exists byModule s, scanModules modules [] initialState = (Throw err, byModule, s).
Proof.
  unfold main.
  destruct (scanModules modules [] initialState) as [[[u|e] byModule] s] eqn:Hscan.
  - simpl. intros Hthrow. exfalso.
    destruct (patternMapOf_returns byModule []) as [pm Hpm]; [|congruence].
    apply (scanModules_nonEmpty _ _ _ _ _ _ Hscan). constructor.
  - simpl. intros [= ->]. now exists byModule, s.
Qed.

Lemma scanModules_throw_cause (modules : list ServiceModule) acc (s s' : GenState)
    (err : string) byModule :
  scanModules modules acc s = (Throw err, byModule, s') ->
  exists m, In m modules /\ hasBareAnnotation m = true.
Proof.
  revert acc s. induction modules as [|m rest IH]; intros acc s; simpl; [discriminate|].
  destruct (scanModule m s) as [[[methods|]|e] s0] eqn:Hscan.
  - intros H. destruct (IH _ _ H) as (m' & Hm & Hbad). exists m'. auto.
  - intros H. destruct (IH _ _ H) as (m' & Hm & Hbad). exists m'. auto.
  - intros _. exists m. split; [now left|].
    apply (scanModule_throws_iff m s). now exists e, s0.
Qed.



End MapFacts.

(** ** The generated interface *)

Section InterfaceFacts.
Import Generator Examples.

Lemma append_eq_nil (a b : string) : (a +:+ b) = "" -> a = "".
Proof. destruct a; [reflexivity|]. rewrite append_cons. discriminate. Qed.

Lemma concat_eq_nil (sep x : string) (xs : list string) :
  String.concat sep (x :: xs) = "" -> x = "".
Proof.
  destruct xs as [|y ys]; simpl; [auto|]. apply append_eq_nil.
Qed.

Lemma payloadType_empty (group : list MethodInfo) :
  String.concat " & " (map payloadTypeOf group) = "" <-> group = [].
Proof.
  split; [|now intros ->].
  destruct group as [|m rest]; [reflexivity|]. simpl map. intros H.
  apply concat_eq_nil in H. unfold payloadTypeOf in H. rewrite append_cons in H.
  discriminate.
Qed.

(** X16. The event part of the generated interface has one signature per
    distinct event name, built from all the handlers of that event in
    their order; the signatures come in the order of the keys of the
    grouping object: the names that are array indices first, and in order
    of first appearance when no event name is one. The signature has no
    payload parameter exactly
    when none of these handlers has a parameter; otherwise its payload type
    is the intersection of the payload types of the handlers that have
    one. *)
Theorem event_signatures_by_event_name (eventInfos : list MethodInfo) :
  let events := List.filter hasEventName eventInfos in
  let names := map fst (groupBy eventKey events) in
  List.NoDup names /\
  (forall name, In name names <->
                exists info, In info eventInfos /\ eventName info = Some name) /\
  generateEventProxyMethods eventInfos =
    map (fun name =>
           eventSignature name
             (List.filter (fun info => String.eqb (eventKey info) name) events))
        names /\
  inKeyOrder names /\
  (Forall (fun info => arrayIndex (eventKey info) = None) events ->
   names = firstAppearances (map eventKey events)) /\
  (forall name group,
      (List.filter hasPayloadParameter group = [] ->
       eventSignature name group =
         "emit" +:+ Remeda.capitalize name +:+ "(options?: Options): Observable<unknown>;") /\
      (List.filter hasPayloadParameter group <> [] ->
       eventSignature name group =
         "emit" +:+ Remeda.capitalize name +:+ "(payload: "
         +:+ String.concat " & " (map payloadTypeOf (List.filter hasPayloadParameter group))
         +:+ ", options?: Options): Observable<unknown>;")).
Proof.
  intros events names. destruct (groupBy_spec eventKey events) as (Hnd & Hgroups & Hall).
  assert (Hevents : forall info, In info events <->
                                 In info eventInfos /\ exists name, eventName info = Some name).
  { intros info. unfold events. rewrite List.filter_In. unfold hasEventName.
    destruct (eventName info) as [name|]; split; intros [Hin H]; split; try exact Hin;
      try reflexivity; try discriminate.
    - now exists name.
    - destruct H as [name H]. discriminate. }
  split; [exact Hnd|]. split; [|split; [|split; [|split]]].
  - intros name. unfold names. rewrite in_map_iff. split.
    + intros ([k xs] & <- & Hin). simpl. destruct (Hgroups k xs Hin) as [-> Hne].
      destruct (List.filter (fun y => String.eqb (eventKey y) k) events) as [|info rest] eqn:Hf;
        [contradiction|].
      assert (Hinfo : In info (List.filter (fun y => String.eqb (eventKey y) k) events))
        by (rewrite Hf; now left).
      apply List.filter_In in Hinfo as [Hinfo Hk]. apply String.eqb_eq in Hk.
      apply Hevents in Hinfo as [Hinfo [name Hname]].
      exists info. split; [exact Hinfo|]. unfold eventKey in Hk. rewrite Hname in Hk.
      simpl in Hk. now subst.
    + intros (info & Hin & Hname).
      assert (Hinfo : In info events) by (apply Hevents; split; [exact Hin|now exists name]).
      eexists. split; [|apply Hall, Hinfo]. simpl. unfold eventKey. now rewrite Hname.
  - unfold generateEventProxyMethods, names. fold events. rewrite map_map.
    apply map_ext_in. intros [k xs] Hin. simpl. now destruct (Hgroups k xs Hin) as [-> _].
  - apply groupBy_inKeyOrder.
  - apply groupBy_keys_in_order.
  - intros name group. unfold eventSignature.
    change (fun m : MethodInfo => negb (paramIndex m =? -1)%Z) with hasPayloadParameter.
    split.
    + intros ->. simpl. rewrite append_nil. reflexivity.
    + intros Hsome.
      destruct (String.eqb_spec
                  (String.concat " & "
                     (map payloadTypeOf (List.filter hasPayloadParameter group))) "")
        as [Hempty|_].
      * apply payloadType_empty in Hempty. contradiction.
      * rewrite !append_assoc3. reflexivity.
Qed.

(** An event name that is an array index has its signature before the
    others, wherever its handlers stand. *)
Lemma index_named_event_comes_first :
  generateEventProxyMethods [eventRecord "zeta"; eventRecord "42"] =
    ["emit42(options?: Options): Observable<unknown>;";
     "emitZeta(options?: Options): Observable<unknown>;"].
Proof. reflexivity. Qed.

Lemma event_signatures_by_event_name_witness :
  generateEventProxyMethods [onCreatedRecord "Mailer" 0; onCreatedRecord "Audit" (-1)] =
    ["emitCreated(payload: Parameters<Mailer['onCreated']>[0], options?: Options): Observable<unknown>;"].
Proof.
  destruct (event_signatures_by_event_name
              [onCreatedRecord "Mailer" 0; onCreatedRecord "Audit" (-1)])
    as (_ & _ & -> & _ & _ & Hsignature).
  simpl map.
  rewrite (proj2 (Hsignature "created" _)); [reflexivity|discriminate].
Defined.

End InterfaceFacts.

(** ** The discovered module paths *)

Section DiscoveryFacts.
Import Generator Examples.

Lemma hasSlash_app (a b : string) : hasSlash (a +:+ b) = hasSlash a || hasSlash b.
Proof.
  unfold hasSlash. induction a as [|c a IH]; [reflexivity|].
  rewrite append_cons. simpl. rewrite IH. now rewrite orb_assoc.
Qed.

Lemma lastSlash_tail (pre b : string) :
  hasSlash b = false -> lastSlash (pre +:+ String "/" b) = b.
Proof.
  intros Hb. induction pre as [|c pre IH].
  - rewrite append_nil. simpl. fold (hasSlash b). now rewrite Hb.
  - rewrite append_cons. simpl. fold (hasSlash (pre +:+ String "/" b)).
    rewrite hasSlash_app. unfold hasSlash at 2. simpl. rewrite orb_true_r. exact IH.
Qed.

Lemma basename_discovered (directory : string) :
  hasSlash directory = false ->
  basename (discoveredPath directory) = (directory +:+ ".module.ts").
Proof.
  intros Hd. unfold basename, discoveredPath.
  replace ("apps/" +:+ directory +:+ "/src/" +:+ directory +:+ ".module.ts")
    with (("apps/" +:+ directory +:+ "/src") +:+ String "/" (directory +:+ ".module.ts")).
  - apply lastSlash_tail. rewrite hasSlash_app, Hd. reflexivity.
  - rewrite !append_assoc3. reflexivity.
Qed.

Lemma list_ascii_app (a b : string) :
  list_ascii_of_string (a +:+ b) = (list_ascii_of_string a ++ list_ascii_of_string b)%list.
Proof.
  induction a as [|c a IH]; [reflexivity|]. rewrite append_cons. simpl. now rewrite IH.
Qed.

Lemma append_inj_r (a b s : string) : (a +:+ s) = (b +:+ s) -> a = b.
Proof.
  intros H. apply (f_equal list_ascii_of_string) in H. rewrite !list_ascii_app in H.
  apply app_inv_tail in H. apply (f_equal string_of_list_ascii) in H.
  now rewrite !string_of_list_ascii_of_string in H.
Qed.

Lemma basenames_distinct (directories : list string) :
  Forall (fun d => hasSlash d = false) directories ->
  List.NoDup directories ->
  List.NoDup (map basename (map discoveredPath directories)).
Proof.
  intros Hall Hnd. induction Hnd as [|d rest Hfresh Hnd IH]; [constructor|].
  inversion Hall as [|? ? Hd Hrest]; subst. cbn [map]. constructor; [|apply IH, Hrest].
  intros Hin. apply Hfresh. rewrite map_map in Hin.
  apply in_map_iff in Hin as (d' & Heq & Hd').
  rewrite List.Forall_forall in Hrest. cbv beta in Heq.
  rewrite (basename_discovered d Hd), (basename_discovered d' (Hrest d' Hd')) in Heq.
  apply append_inj_r in Heq. now subst.
Qed.



End DiscoveryFacts.
